(** * The Automated Parking Lot System: slot allocation and billing

    A shallow embedding of the model classes of
    [The_Automated_Parking_Lot_System.py] ([Vehicle], [ParkingLot]) and of the
    handlers of [AutomatedParkingLotSystem] that drive them, followed by the
    properties of the slot-allocation and billing model.

    Conventions of the embedding.
    - A [datetime] is a number of microseconds on the wall clock (the
      resolution of Python's [datetime]); a [timedelta] is a difference of two.
      Every [datetime.now()] of the source is an argument of the function that
      reads the clock.
    - Python floats are read as exact rationals ([Q]): [total_seconds() / 3600],
      [max], [+ 0.99], [// 1] and [* rate] are the exact operations.  For the
      hours billed by [get_parking_fee] the binary64 arithmetic of the code
      gives the same whole number as long as the stay is below [exact_stay]
      (2^21 hours, some 239 years): the shortest stay on which the two part
      is 2^21 h + 36 s - 1 us, where rounding bills one hour more.  A
      statement that pins the billed hours carries that bound.
    - A method that mutates [self] takes the lot and returns the new lot together
      with what the call returned or raised ([outcome]).
    - A [Vehicle] handed to [park_vehicle] is a freshly constructed object, as
      at every call site of the source, so records are values.
    - [self.vehicles] is a Python [dict]: an association list in insertion
      order with unique keys. *)

From Stdlib Require Import ZArith QArith Qround Qminmax Lia Lqa Sorted.
From stdpp Require Import base option list strings.

Local Open Scope Z_scope.

(** ** Python values *)

Definition datetime := Z.
Definition timedelta := Z.

(** [timedelta.total_seconds()] *)
Definition total_seconds (d : timedelta) : Q := (d # 1000000)%Q.

Inductive exn := ParkingLotFullError | ValueError | IndexError.

Inductive outcome (A : Type) :=
| Returned (a : A)
| Raised (e : exn).
Arguments Returned {A} a.
Arguments Raised {A} e.

(** [range(n)] *)
Definition range (n : Z) : list Z := Z.of_nat <$> seq 0 (Z.to_nat n).

(** The position a Python list index denotes: negative indices count from the
    end, anything else out of range is an [IndexError] ([None] here). *)
Definition py_index {A} (l : list A) (i : Z) : option nat :=
  let n := Z.of_nat (length l) in
  if (0 <=? i) && (i <? n) then Some (Z.to_nat i)
  else if (- n <=? i) && (i <? 0) then Some (Z.to_nat (n + i))
  else None.

(** [l[i]] *)
Definition py_getitem {A} (l : list A) (i : Z) : option A :=
  match py_index l i with
  | Some k => l !! k
  | None => None
  end.

(** [l[i] = x] *)
Definition py_setitem {A} (l : list A) (i : Z) (x : A) : option (list A) :=
  match py_index l i with
  | Some k => Some (<[k := x]> l)
  | None => None
  end.

(** Python's [dict] with string keys, in insertion order. *)
Module dict.
Definition t (V : Type) := list (string * V).

Definition empty {V} : t V := [].

Fixpoint get {V} (k : string) (d : t V) : option V :=
  match d with
  | [] => None
  | (k', v) :: d' => if String.eqb k k' then Some v else get k d'
  end.

(** [k in d] *)
Definition contains {V} (k : string) (d : t V) : bool :=
  match get k d with Some _ => true | None => false end.

(** [d[k] = v]: a present key keeps its place, a new one goes last. *)
Fixpoint set {V} (k : string) (v : V) (d : t V) : t V :=
  match d with
  | [] => [(k, v)]
  | (k', v') :: d' =>
      if String.eqb k k' then (k', v) :: d' else (k', v') :: set k v d'
  end.

(** [del d[k]] *)
Fixpoint del {V} (k : string) (d : t V) : t V :=
  match d with
  | [] => []
  | (k', v') :: d' => if String.eqb k k' then d' else (k', v') :: del k d'
  end.

Definition keys {V} (d : t V) : list string := fst <$> d.
Definition values {V} (d : t V) : list V := snd <$> d.
Definition len {V} (d : t V) : nat := length d.
End dict.

(** ** class VehicleType(Enum) *)

Module VehicleType.
Inductive t := CAR | BIKE | TRUCK | SUV.

Definition value (v : t) : string :=
  match v with
  | CAR => "Car" | BIKE => "Bike" | TRUCK => "Truck" | SUV => "SUV"
  end.
End VehicleType.

(** ** class Vehicle *)

Module Vehicle.
Record t := mk {
  vehicle_id : string;
  vehicle_type : VehicleType.t;
  owner_name : string;
  entry_time : option datetime;
  slot_number : option Z;
  color : string
}.

(** [Vehicle.__init__]; [color] is the result of [generate_color]'s
    [random.choice]. *)
Definition init (vehicle_id : string) (vehicle_type : VehicleType.t)
    (owner_name : string) (color : string) : t :=
  {| vehicle_id := vehicle_id; vehicle_type := vehicle_type;
     owner_name := owner_name; entry_time := None; slot_number := None;
     color := color |}.

Definition set_parked (self : t) (slot : Z) (now : datetime) : t :=
  {| vehicle_id := vehicle_id self; vehicle_type := vehicle_type self;
     owner_name := owner_name self; entry_time := Some now;
     slot_number := Some slot; color := color self |}.

(** The [rates] table of [get_parking_fee]. *)
Definition rates (ty : VehicleType.t) : Q :=
  match ty with
  | VehicleType.CAR => 2
  | VehicleType.BIKE => 1
  | VehicleType.TRUCK => 3
  | VehicleType.SUV => 5 # 2
  end%Q.

(** [(exit_time - entry_time).total_seconds() / 3600] *)
Definition hours_between (entry_time exit_time : datetime) : Q :=
  (total_seconds (exit_time - entry_time)%Z / 3600)%Q.

(** [get_parking_fee], in exact arithmetic.  Below a stay of 2^21 hours the
    binary64 arithmetic of the code bills the same whole hours. *)
Definition get_parking_fee (self : t) (exit_time : datetime) : Q :=
  match entry_time self with
  | None => 0%Q
  | Some entry =>
      let hours_parked := hours_between entry exit_time in
      let hours_parked := Qmax 1 hours_parked in
      let hours_parked := inject_Z (Qfloor (hours_parked + (99 # 100))) in
      let rate := rates (vehicle_type self) in
      (hours_parked * rate)%Q
  end.
End Vehicle.

(** The subclasses differ in the category they pass on only. *)
Definition Car (vehicle_id owner_name color : string) : Vehicle.t :=
  Vehicle.init vehicle_id VehicleType.CAR owner_name color.
Definition Bike (vehicle_id owner_name color : string) : Vehicle.t :=
  Vehicle.init vehicle_id VehicleType.BIKE owner_name color.
Definition Truck (vehicle_id owner_name color : string) : Vehicle.t :=
  Vehicle.init vehicle_id VehicleType.TRUCK owner_name color.
Definition SUV (vehicle_id owner_name color : string) : Vehicle.t :=
  Vehicle.init vehicle_id VehicleType.SUV owner_name color.

Definition make_vehicle (ty : VehicleType.t) : string -> string -> string -> Vehicle.t :=
  match ty with
  | VehicleType.CAR => Car
  | VehicleType.BIKE => Bike
  | VehicleType.TRUCK => Truck
  | VehicleType.SUV => SUV
  end.

(** ** class ParkingLot *)

Module ParkingLot.
Record t := mk {
  capacity : Z;
  slots : list (option Vehicle.t);
  vehicles : dict.t Vehicle.t;
  hourly_rate : Q;
  revenue : Q;
  total_vehicles : Z
}.

Definition default_capacity : Z := 5.

(** [ParkingLot.__init__]: [[None] * capacity] is the empty list for a
    capacity below one. *)
Definition init (capacity : Z) : t :=
  {| capacity := capacity;
     slots := replicate (Z.to_nat capacity) None;
     vehicles := dict.empty;
     hourly_rate := 2;
     revenue := 0;
     total_vehicles := 0 |}.

Definition is_occupied (slot : option Vehicle.t) : bool :=
  match slot with Some _ => true | None => false end.

Definition is_full (self : t) : bool := forallb is_occupied (slots self).

Definition is_empty (self : t) : bool :=
  forallb (fun slot => negb (is_occupied slot)) (slots self).

(** The assignments of the body of [park_vehicle]'s loop. *)
Definition place_at (self : t) (k : nat) (vehicle : Vehicle.t) : t :=
  {| capacity := capacity self;
     slots := <[k := Some vehicle]> (slots self);
     vehicles := dict.set (Vehicle.vehicle_id vehicle) vehicle (vehicles self);
     hourly_rate := hourly_rate self;
     revenue := revenue self;
     total_vehicles := total_vehicles self + 1 |}.

(** The [for slot_number in range(self.capacity)] loop of [park_vehicle],
    with the [raise] that follows it. *)
Fixpoint park_vehicle_for (self : t) (vehicle : Vehicle.t) (now : datetime)
    (rng : list Z) : t * outcome Z :=
  match rng with
  | [] => (self, Raised ParkingLotFullError)
  | slot_number :: rng' =>
      match py_index (slots self) slot_number with
      | None => (self, Raised IndexError)
      | Some k =>
          match slots self !! k with
          | Some None =>
              let vehicle := Vehicle.set_parked vehicle (slot_number + 1) now in
              (place_at self k vehicle, Returned (slot_number + 1))
          | Some (Some _) => park_vehicle_for self vehicle now rng'
          | None => (self, Raised IndexError)
          end
      end
  end.

Definition park_vehicle (self : t) (vehicle : Vehicle.t) (now : datetime)
    : t * outcome Z :=
  if is_full self then (self, Raised ParkingLotFullError)
  else park_vehicle_for self vehicle now (range (capacity self)).

Definition add_revenue (self : t) (fee : Q) : t :=
  {| capacity := capacity self; slots := slots self;
     vehicles := vehicles self; hourly_rate := hourly_rate self;
     revenue := (revenue self + fee)%Q;
     total_vehicles := total_vehicles self |}.

Definition set_slots (self : t) (slots' : list (option Vehicle.t)) : t :=
  {| capacity := capacity self; slots := slots';
     vehicles := vehicles self; hourly_rate := hourly_rate self;
     revenue := revenue self; total_vehicles := total_vehicles self |}.

Definition set_vehicles (self : t) (vehicles' : dict.t Vehicle.t) : t :=
  {| capacity := capacity self; slots := slots self;
     vehicles := vehicles'; hourly_rate := hourly_rate self;
     revenue := revenue self; total_vehicles := total_vehicles self |}.

(** [if vehicle.slot_number:] is taken for an integer other than zero. *)
Definition truthy (slot_number : option Z) : bool :=
  match slot_number with
  | Some n => negb (n =? 0)
  | None => false
  end.

Definition remove_vehicle (self : t) (vehicle_id : string) (now : datetime)
    : t * outcome (Vehicle.t * Q) :=
  match dict.get vehicle_id (vehicles self) with
  | None => (self, Raised ValueError)
  | Some vehicle =>
      let exit_time := now in
      let fee := Vehicle.get_parking_fee vehicle exit_time in
      let self := add_revenue self fee in
      let freed :=
        if truthy (Vehicle.slot_number vehicle)
        then py_setitem (slots self)
               (default 0 (Vehicle.slot_number vehicle) - 1) None
        else Some (slots self) in
      match freed with
      | None => (self, Raised IndexError)
      | Some slots' =>
          let self := set_slots self slots' in
          let self := set_vehicles self (dict.del vehicle_id (vehicles self)) in
          (self, Returned (vehicle, fee))
      end
  end.

(** [[i + 1 for i, slot in enumerate(self.slots) if ...]] *)
Definition numbered (slots : list (option Vehicle.t)) : list (Z * option Vehicle.t) :=
  imap (fun i slot => (Z.of_nat i + 1, slot)) slots.

Definition get_available_slots (self : t) : list Z :=
  fst <$> filter (fun p => is_occupied (snd p) = false) (numbered (slots self)).

Definition get_occupied_slots (self : t) : list Z :=
  fst <$> filter (fun p => is_occupied (snd p) = true) (numbered (slots self)).

Definition get_slot_status (self : t) (slot_number : Z)
    : outcome (option Vehicle.t) :=
  if (1 <=? slot_number) && (slot_number <=? capacity self)
  then match py_getitem (slots self) (slot_number - 1) with
       | Some slot => Returned slot
       | None => Raised IndexError
       end
  else Returned None.

Definition get_total_vehicles_parked (self : t) : nat :=
  dict.len (vehicles self).

Definition reset (self : t) : t :=
  {| capacity := capacity self;
     slots := replicate (Z.to_nat (capacity self)) None;
     vehicles := dict.empty;
     hourly_rate := hourly_rate self;
     revenue := revenue self;
     total_vehicles := total_vehicles self |}.
(** What a true division gives: its quotient, or a [ZeroDivisionError]. *)
Inductive quotient :=
| Quotient (q : Q)
| ZeroDivisionError.

(** [get_occupancy_rate]: [(occupied / self.capacity) * 100]. *)
Definition get_occupancy_rate (self : t) : quotient :=
  let occupied := length (get_occupied_slots self) in
  if capacity self =? 0 then ZeroDivisionError
  else Quotient
         ((inject_Z (Z.of_nat occupied) / inject_Z (capacity self)) * 100)%Q.
End ParkingLot.

(** ** class AutomatedParkingLotSystem: the handlers that drive the lot

    Only [self.parking_lot] is state of the model.  What a handler reads from
    its widgets, draws at random or is answered by a dialog is an argument;
    what it writes to a status label or message box is its [status]. *)

Module AutomatedParkingLotSystem.
Inductive status :=
| PleaseEnterVehicleId
| AlreadyParked
| ParkedInSlot (slot_number : Z)
| NoAvailableSlots
| Uncaught (e : exn).

Definition park_status (r : ParkingLot.t * outcome Z) : ParkingLot.t * status :=
  match r with
  | (lot, Returned slot_number) => (lot, ParkedInSlot slot_number)
  | (lot, Raised ParkingLotFullError) => (lot, NoAvailableSlots)
  | (lot, Raised e) => (lot, Uncaught e)
  end.

(** [park_vehicle]: [vehicle_id] and [owner_name] are the entries after
    [.strip().upper()] and [.strip()], [vehicle_type] is
    [VehicleType(vehicle_type_str)]. *)
Definition park_vehicle (parking_lot : ParkingLot.t)
    (vehicle_id owner_name : string) (vehicle_type : VehicleType.t)
    (color : string) (now : datetime) : ParkingLot.t * status :=
  if String.eqb vehicle_id "" then (parking_lot, PleaseEnterVehicleId)
  else
    let owner_name :=
      if String.eqb owner_name "" then "Unknown"%string else owner_name in
    if dict.contains vehicle_id (ParkingLot.vehicles parking_lot)
    then (parking_lot, AlreadyParked)
    else
      let vehicle := make_vehicle vehicle_type vehicle_id owner_name color in
      park_status (ParkingLot.park_vehicle parking_lot vehicle now).

(** [quick_park]: [vehicle_id], [owner] and [color] are the random draws. *)
Definition quick_park (parking_lot : ParkingLot.t)
    (vehicle_type : VehicleType.t) (vehicle_id owner color : string)
    (now : datetime) : ParkingLot.t * status :=
  let vehicle := make_vehicle vehicle_type vehicle_id owner color in
  park_status (ParkingLot.park_vehicle parking_lot vehicle now).

(** The [while self.parking_lot.vehicles:] loop of [emergency_clear].  The
    k-th pass reads the clock as [clock k]; whatever [remove_vehicle] raises
    is swallowed by [except Exception: pass] and what it returns is dropped.
    [fuel] bounds the number of passes: [None] is a loop still running. *)
Fixpoint emergency_clear_while (fuel : nat) (clock : nat -> datetime)
    (parking_lot : ParkingLot.t) : option ParkingLot.t :=
  match dict.keys (ParkingLot.vehicles parking_lot) with
  | [] => Some parking_lot
  | vehicle_id :: _ =>
      match fuel with
      | O => None
      | S fuel' =>
          let (parking_lot', _) :=
            ParkingLot.remove_vehicle parking_lot vehicle_id (clock O) in
          emergency_clear_while fuel' (fun k => clock (S k)) parking_lot'
      end
  end.

Definition reset_parking_lot (response : bool) (parking_lot : ParkingLot.t)
    : ParkingLot.t :=
  if response then ParkingLot.reset parking_lot else parking_lot.
(** The status line of [update_real_time_info]: "FULL", "EMPTY" or
    "occupied/capacity". *)
Inductive lot_status :=
| FULL
| EMPTY
| Occupancy (occupied : nat) (capacity : Z).

Definition update_real_time_info (parking_lot : ParkingLot.t) : lot_status :=
  if ParkingLot.is_full parking_lot then FULL
  else if ParkingLot.is_empty parking_lot then EMPTY
  else Occupancy (ParkingLot.get_total_vehicles_parked parking_lot)
         (ParkingLot.capacity parking_lot).

(** What [remove_vehicle] reports. *)
Inductive remove_status :=
| PleaseEnterVehicleIdToRemove
| Removed (vehicle : Vehicle.t) (fee : Q)
| NotFound
| UncaughtOnRemove (e : exn).

(** [remove_vehicle]: [vehicle_id] is the entry after [.strip().upper()]. *)
Definition remove_vehicle (parking_lot : ParkingLot.t) (vehicle_id : string)
    (now : datetime) : ParkingLot.t * remove_status :=
  if String.eqb vehicle_id "" then (parking_lot, PleaseEnterVehicleIdToRemove)
  else
    match ParkingLot.remove_vehicle parking_lot vehicle_id now with
    | (lot, Returned (vehicle, fee)) => (lot, Removed vehicle fee)
    | (lot, Raised ValueError) => (lot, NotFound)
    | (lot, Raised e) => (lot, UncaughtOnRemove e)
    end.

(** [on_slot_selected]: [slot_str] is the combo box value ([None] for the
    empty string, else the number it spells); the result is the text of the
    identifier entry afterwards. *)
Definition on_slot_selected (parking_lot : ParkingLot.t) (slot_str : option Z)
    (remove_id_entry : string) : outcome string :=
  match slot_str with
  | None => Returned remove_id_entry
  | Some slot_num =>
      match ParkingLot.get_slot_status parking_lot slot_num with
      | Returned (Some vehicle) => Returned (Vehicle.vehicle_id vehicle)
      | Returned None => Returned remove_id_entry
      | Raised e => Raised e
      end
  end.

Definition demo_vehicles : list (string * VehicleType.t * string) :=
  [("ABC123", VehicleType.CAR, "John Smith");
   ("XYZ789", VehicleType.BIKE, "Alice Johnson");
   ("TRK456", VehicleType.TRUCK, "Bob Wilson");
   ("SUV321", VehicleType.SUV, "Carol Davis")]%string.

(** The loop of [initialize_demo_vehicles] over the vehicles still to park:
    the k-th pass draws the colour [colors k] and reads the clock as
    [clock k]; a full lot ends the loop ([break]). *)
Fixpoint initialize_demo_vehicles_for (parking_lot : ParkingLot.t)
    (demo : list (string * VehicleType.t * string))
    (colors : nat -> string) (clock : nat -> datetime)
    : ParkingLot.t * outcome unit :=
  match demo with
  | [] => (parking_lot, Returned tt)
  | (vehicle_id, vehicle_type, owner) :: demo' =>
      let vehicle := make_vehicle vehicle_type vehicle_id owner (colors O) in
      match ParkingLot.park_vehicle parking_lot vehicle (clock O) with
      | (lot, Returned _) =>
          initialize_demo_vehicles_for lot demo'
            (fun k => colors (S k)) (fun k => clock (S k))
      | (lot, Raised ParkingLotFullError) => (lot, Returned tt)
      | (lot, Raised e) => (lot, Raised e)
      end
  end.

(** The grid of [draw_parking_lot] and [animate_parking]. *)
Definition rows : Z := 3.
Definition cols : Z := 4.

(** [draw_parking_lot]: the slot drawn at [row], [col]. *)
Definition slot_num (row col : Z) : Z := row * cols + col + 1.

(** [draw_parking_lot]: the rectangle [(x1, y1, x2, y2)] of that cell; a
    canvas below 100 in either direction is drawn as 600 by 400. *)
Definition draw_cell (canvas_width canvas_height row col : Z) : Z * Z * Z * Z :=
  let small := (canvas_width <? 100) || (canvas_height <? 100) in
  let canvas_width := if small then 600 else canvas_width in
  let canvas_height := if small then 400 else canvas_height in
  let slot_width := canvas_width / (cols + 2) in
  let slot_height := canvas_height / (rows + 2) in
  let x1 := (col + 1) * slot_width in
  let y1 := (row + 1) * slot_height in
  let x2 := x1 + slot_width - 10 in
  let y2 := y1 + slot_height - 10 in
  (x1, y1, x2, y2).

(** [animate_parking]: the centre [(x, y)] of the highlight, drawn only on a
    canvas wider than 100. *)
Definition animate_parking (canvas_width canvas_height slot_number : Z)
    : option (Z * Z) :=
  if 100 <? canvas_width then
    let slot_width := canvas_width / (cols + 2) in
    let slot_height := canvas_height / (rows + 2) in
    let row := (slot_number - 1) / cols in
    let col := (slot_number - 1) mod cols in
    let x := (col + 1) * slot_width + slot_width / 2 in
    let y := (row + 1) * slot_height + slot_height / 2 in
    Some (x, y)
  else None.

(** The slot numbers [draw_parking_lot] visits, row by row. *)
Definition drawn_slots : list Z :=
  row ← range rows; col ← range cols; [slot_num row col].

(** The [get_slot_status] calls of [draw_parking_lot], in order: the
    statuses read, or what the first failing call raises. *)
Fixpoint slot_statuses (parking_lot : ParkingLot.t) (slot_nums : list Z)
    : outcome (list (Z * option Vehicle.t)) :=
  match slot_nums with
  | [] => Returned []
  | slot_num :: slot_nums' =>
      match ParkingLot.get_slot_status parking_lot slot_num with
      | Raised e => Raised e
      | Returned vehicle =>
          match slot_statuses parking_lot slot_nums' with
          | Raised e => Raised e
          | Returned drawn => Returned ((slot_num, vehicle) :: drawn)
          end
      end
  end.

(** [draw_parking_lot], as far as it reads the lot. *)
Definition draw_parking_lot (parking_lot : ParkingLot.t)
    : outcome (list (Z * option Vehicle.t)) :=
  slot_statuses parking_lot drawn_slots.

(** What [update_display] puts into the statistics boxes (available,
    occupied, occupancy rate, revenue, admissions), or what it raises: the
    division of [get_occupancy_rate] is not guarded.  The rows of the vehicle
    list, which raise nothing, are not part of it. *)
Inductive display :=
| Shown (available occupied : nat) (occupancy_rate : Q) (revenue : Q)
    (total_vehicles : Z)
| RaisedZeroDivisionError
| RaisedFromLot (e : exn).

Definition update_display (parking_lot : ParkingLot.t) : display :=
  match draw_parking_lot parking_lot with
  | Raised e => RaisedFromLot e
  | Returned _ =>
      let available := length (ParkingLot.get_available_slots parking_lot) in
      let occupied := length (ParkingLot.get_occupied_slots parking_lot) in
      match ParkingLot.get_occupancy_rate parking_lot with
      | ParkingLot.ZeroDivisionError => RaisedZeroDivisionError
      | ParkingLot.Quotient occupancy_rate =>
          Shown available occupied occupancy_rate
            (ParkingLot.revenue parking_lot)
            (ParkingLot.total_vehicles parking_lot)
      end
  end.

(** [initialize_demo_vehicles]: the loop, then [self.update_display()]; the
    result is the lot left behind and what the display shows or raises. *)
Definition initialize_demo_vehicles (parking_lot : ParkingLot.t)
    (colors : nat -> string) (clock : nat -> datetime)
    : ParkingLot.t * display :=
  match initialize_demo_vehicles_for parking_lot demo_vehicles colors clock with
  | (lot, Returned _) => (lot, update_display lot)
  | (lot, Raised e) => (lot, RaisedFromLot e)
  end.

(** [emergency_clear]: [response] is the answer to the confirmation
    dialog.  The handler returns nothing; the result is the lot it leaves
    and, where the loop was run, what the [self.update_display()] after it
    shows or raises.  [None] is a loop still running when the fuel is
    spent. *)
Definition emergency_clear (fuel : nat) (clock : nat -> datetime)
    (response : bool) (parking_lot : ParkingLot.t)
    : option (ParkingLot.t * option display) :=
  if ParkingLot.is_empty parking_lot then Some (parking_lot, None)
  else if response then
    match emergency_clear_while fuel clock parking_lot with
    | Some lot => Some (lot, Some (update_display lot))
    | None => None
    end
  else Some (parking_lot, None).
End AutomatedParkingLotSystem.

(** ** Sample lots *)

Definition hour : timedelta := 3600000000.
Definition second : timedelta := 1000000.

(** The stays below which binary64 and exact arithmetic bill the same hours:
    2^21 hours. *)
Definition exact_stay : timedelta := 2097152 * hour.

(** The lot a call leaves behind. *)
Definition after_park (lot : ParkingLot.t) (v : Vehicle.t) (now : datetime) : ParkingLot.t :=
  fst (ParkingLot.park_vehicle lot v now).
Definition after_remove (lot : ParkingLot.t) (vehicle_id : string) (now : datetime)
    : ParkingLot.t :=
  fst (ParkingLot.remove_vehicle lot vehicle_id now).

Definition sample_car : Vehicle.t := Car "ABC123" "John Smith" "#3498db".
Definition sample_bike : Vehicle.t := Bike "XYZ789" "Alice Johnson" "#e74c3c".
Definition sample_truck : Vehicle.t := Truck "TRK456" "Bob Wilson" "#f39c12".
Definition sample_suv : Vehicle.t := SUV "SUV321" "Carol Davis" "#9b59b6".

(** A second vehicle that carries the identifier of [sample_car]. *)
Definition same_id_car : Vehicle.t := Car "ABC123" "Jane Brown" "#2980b9".

(** One car, parked at time 0 in a lot of five slots. *)
Definition lot_one_car : ParkingLot.t := after_park (ParkingLot.init 5) sample_car 0.

(** A car and a bike, parked at time 0. *)
Definition lot_two : ParkingLot.t := after_park lot_one_car sample_bike 0.

(** Slots [occupied, free, occupied, free]. *)
Definition lot_gaps : ParkingLot.t :=
  after_remove
    (after_remove
       (after_park (after_park (after_park (after_park (ParkingLot.init 4) sample_car 0)
                        sample_bike 0) sample_truck 0) sample_suv 0)
       "XYZ789" hour)
    "SUV321" hour.

(** ** Invariants of the lot *)

(** The number of non-empty cells of the slot array. *)
Definition occupied_count (slots : list (option Vehicle.t)) : nat :=
  length (filter (fun slot => ParkingLot.is_occupied slot = true) slots).

(** I1: the index has as many entries as there are occupied slots. *)
Definition I1 (lot : ParkingLot.t) : Prop :=
  dict.len (ParkingLot.vehicles lot) = occupied_count (ParkingLot.slots lot).

(** The slot array has the length [__init__] and [reset] give it. *)
Definition slots_ok (lot : ParkingLot.t) : Prop :=
  length (ParkingLot.slots lot) = Z.to_nat (ParkingLot.capacity lot).

(** I2, both ways: every indexed record sits in the slot it names, and every
    occupied slot holds the record the index has for its identifier. *)
Definition in_sync (lot : ParkingLot.t) : Prop :=
  NoDup (dict.keys (ParkingLot.vehicles lot)) /\
  (forall k v, dict.get k (ParkingLot.vehicles lot) = Some v ->
     Vehicle.vehicle_id v = k /\
     exists i : nat, Vehicle.slot_number v = Some (Z.of_nat i + 1) /\
                     ParkingLot.slots lot !! i = Some (Some v)) /\
  (forall (i : nat) v, ParkingLot.slots lot !! i = Some (Some v) ->
     dict.get (Vehicle.vehicle_id v) (ParkingLot.vehicles lot) = Some v /\
     Vehicle.slot_number v = Some (Z.of_nat i + 1)).

(** The lots a program builds with the constructor and the methods. *)
Inductive reachable : ParkingLot.t -> Prop :=
| reach_init capacity : reachable (ParkingLot.init capacity)
| reach_park lot vehicle now :
    reachable lot -> reachable (fst (ParkingLot.park_vehicle lot vehicle now))
| reach_remove lot vehicle_id now :
    reachable lot -> reachable (fst (ParkingLot.remove_vehicle lot vehicle_id now))
| reach_reset lot : reachable lot -> reachable (ParkingLot.reset lot).

(** The runs in which no admission carries an identifier that is parked at
    that moment. *)
Inductive fresh_run : ParkingLot.t -> Prop :=
| fresh_init capacity : fresh_run (ParkingLot.init capacity)
| fresh_park lot v now :
    fresh_run lot ->
    dict.get (Vehicle.vehicle_id v) (ParkingLot.vehicles lot) = None ->
    fresh_run (fst (ParkingLot.park_vehicle lot v now))
| fresh_remove lot vehicle_id now :
    fresh_run lot ->
    fresh_run (fst (ParkingLot.remove_vehicle lot vehicle_id now))
| fresh_reset lot : fresh_run lot -> fresh_run (ParkingLot.reset lot).

(** The three counts a lot shows: parked records, occupied slots and
    admissions so far. *)
Definition counters_ok (lot : ParkingLot.t) : Prop :=
  (ParkingLot.get_total_vehicles_parked lot
     <= length (ParkingLot.get_occupied_slots lot))%nat /\
  Z.of_nat (length (ParkingLot.get_occupied_slots lot))
     <= ParkingLot.total_vehicles lot.

(** The invariants that hold as long as no identifier is parked twice. *)
Definition lot_invariants (lot : ParkingLot.t) : Prop :=
  slots_ok lot /\ in_sync lot /\ I1 lot.

(** The identifiers of a list of demonstration vehicles. *)
Definition demo_ids (demo : list (string * VehicleType.t * string)) : list string :=
  (fun p => fst (fst p)) <$> demo.

(** One [remove_vehicle] call per identifier, in list order, the k-th at the
    clock reading [clock k]; what the calls return or raise is dropped. *)
Fixpoint remove_each (clock : nat -> datetime) (vehicle_ids : list string)
    (lot : ParkingLot.t) : ParkingLot.t :=
  match vehicle_ids with
  | [] => lot
  | vehicle_id :: vehicle_ids' =>
      remove_each (fun k => clock (S k)) vehicle_ids'
        (fst (ParkingLot.remove_vehicle lot vehicle_id (clock O)))
  end.

(** The call [ParkingLot(capacity)]: [__init__] has no failing path. *)
Definition construct (capacity : Z) : outcome ParkingLot.t :=
  Returned (ParkingLot.init capacity).

(** Billed hours in the words of the specification:
    [ceil(max(elapsed, 1.0))]. *)
Definition billed_hours_spec (elapsed : Q) : Z := Qceiling (Qmax elapsed 1).

(** Billed hours as [get_parking_fee] computes them. *)
Definition billed_hours (elapsed : Q) : Z := Qfloor (Qmax 1 elapsed + (99 # 100)).

(** The part of a rational after its floor. *)
Definition frac (x : Q) : Q := (x - inject_Z (Qfloor x))%Q.

(** ** Python lists and dicts *)

Section PyList.
Context {A : Type}.
Implicit Types (l : list A) (k : nat) (i : Z).

Lemma py_index_nat l k :
  (k < length l)%nat -> py_index l (Z.of_nat k) = Some k.
Proof.
  intros Hk. unfold py_index.
  replace (0 <=? Z.of_nat k) with true by (symmetry; apply Z.leb_le; lia).
  replace (Z.of_nat k <? Z.of_nat (length l)) with true
    by (symmetry; apply Z.ltb_lt; lia).
  simpl. f_equal. lia.
Qed.

Lemma py_index_in_range l i :
  0 <= i < Z.of_nat (length l) -> py_index l i = Some (Z.to_nat i).
Proof.
  intros Hi. rewrite <- (Z2Nat.id i) at 1 by lia.
  apply py_index_nat. lia.
Qed.

Lemma py_index_lt l i k : py_index l i = Some k -> (k < length l)%nat.
Proof.
  unfold py_index.
  destruct ((0 <=? i) && (i <? Z.of_nat (length l))) eqn:E1.
  - apply andb_true_iff in E1 as [H1 H2].
    apply Z.leb_le in H1. apply Z.ltb_lt in H2. intros [= <-]. lia.
  - destruct ((- Z.of_nat (length l) <=? i) && (i <? 0)) eqn:E2; [|done].
    apply andb_true_iff in E2 as [H1 H2].
    apply Z.leb_le in H1. apply Z.ltb_lt in H2. intros [= <-]. lia.
Qed.

Lemma py_setitem_length l i x l' :
  py_setitem l i x = Some l' -> length l' = length l.
Proof.
  unfold py_setitem. destruct (py_index l i); [|done].
  intros [= <-]. apply length_insert.
Qed.
End PyList.

Section Dict.
Context {V : Type}.
Implicit Types (d : dict.t V) (k : string) (v : V).

Lemma dict_get_None d k : dict.get k d = None <-> k ∉ dict.keys d.
Proof.
  induction d as [|[k' v'] d IH]; simpl.
  - split; [intros _; apply not_elem_of_nil | done].
  - destruct (String.eqb_spec k k') as [->|Hne].
    + split; [done | intros H; exfalso; apply H; left].
    + rewrite IH. rewrite not_elem_of_cons. tauto.
Qed.

Lemma dict_get_set_eq d k v : dict.get k (dict.set k v d) = Some v.
Proof.
  induction d as [|[k' v'] d IH]; simpl.
  - by rewrite String.eqb_refl.
  - destruct (String.eqb_spec k k') as [->|Hne]; simpl.
    + by rewrite String.eqb_refl.
    + destruct (String.eqb_spec k k'); [done | apply IH].
Qed.

Lemma dict_get_set_ne d k k' v :
  k <> k' -> dict.get k' (dict.set k v d) = dict.get k' d.
Proof.
  intros Hne. induction d as [|[k0 v0] d IH]; simpl.
  - destruct (String.eqb_spec k' k); [congruence | done].
  - destruct (String.eqb_spec k k0) as [->|Hk]; simpl.
    + destruct (String.eqb_spec k' k0); [congruence | done].
    + destruct (String.eqb_spec k' k0); [done | apply IH].
Qed.

Lemma dict_set_fresh d k v :
  dict.get k d = None -> dict.set k v d = d ++ [(k, v)].
Proof.
  induction d as [|[k' v'] d IH]; simpl; [done|].
  destruct (String.eqb_spec k k'); [done|].
  intros H. by rewrite IH.
Qed.

Lemma dict_get_del_ne d k k' :
  k <> k' -> dict.get k' (dict.del k d) = dict.get k' d.
Proof.
  intros Hne. induction d as [|[k0 v0] d IH]; simpl; [done|].
  destruct (String.eqb_spec k k0) as [->|Hk]; simpl.
  - destruct (String.eqb_spec k' k0); [congruence | done].
  - destruct (String.eqb_spec k' k0); [done | apply IH].
Qed.

Lemma dict_keys_del_subseteq d k : dict.keys (dict.del k d) ⊆ dict.keys d.
Proof.
  unfold dict.keys.
  induction d as [|[k0 v0] d IH]; simpl; [done|].
  destruct (String.eqb_spec k k0); simpl.
  - intros x Hx. by right.
  - intros x Hx. apply elem_of_cons in Hx as [->|Hx]; [left | right; by apply IH].
Qed.

Lemma dict_get_del_eq d k :
  NoDup (dict.keys d) -> dict.get k (dict.del k d) = None.
Proof.
  induction d as [|[k0 v0] d IH]; simpl; [done|].
  intros Hnd. apply NoDup_cons in Hnd as [Hk0 Hnd].
  destruct (String.eqb_spec k k0) as [->|Hk]; simpl.
  - by apply dict_get_None.
  - destruct (String.eqb_spec k k0); [done | by apply IH].
Qed.

Lemma dict_NoDup_del d k :
  NoDup (dict.keys d) -> NoDup (dict.keys (dict.del k d)).
Proof.
  induction d as [|[k0 v0] d IH]; simpl; [done|].
  intros Hnd. apply NoDup_cons in Hnd as [Hk0 Hnd].
  destruct (String.eqb_spec k k0); simpl; [done|].
  apply NoDup_cons. split; [|by apply IH].
  intros Hin. apply Hk0. by apply (dict_keys_del_subseteq d k).
Qed.

Lemma dict_len_del d k v :
  dict.get k d = Some v -> S (dict.len (dict.del k d)) = dict.len d.
Proof.
  unfold dict.len.
  induction d as [|[k0 v0] d IH]; simpl; [done|].
  destruct (String.eqb_spec k k0); simpl; [done|].
  intros H. by rewrite IH.
Qed.

Lemma dict_first_key d k ks :
  dict.keys d = k :: ks -> exists v, dict.get k d = Some v.
Proof.
  destruct d as [|[k0 v0] d]; simpl; [done|].
  intros [= -> _]. exists v0. by rewrite String.eqb_refl.
Qed.
End Dict.

(** ** Billing *)

Lemma Qfloor_unique (x : Q) (a : Z) :
  (inject_Z a <= x)%Q -> (x < inject_Z (a + 1))%Q -> Qfloor x = a.
Proof.
  intros H1 H2.
  pose proof (Qfloor_le x) as F1. pose proof (Qlt_floor x) as F2.
  assert (a < Qfloor x + 1) by (rewrite Zlt_Qlt; eapply Qle_lt_trans; eauto).
  assert (Qfloor x < a + 1) by (rewrite Zlt_Qlt; eapply Qle_lt_trans; eauto).
  lia.
Qed.

Lemma Qceiling_unique (x : Q) (a : Z) :
  (inject_Z (a - 1) < x)%Q -> (x <= inject_Z a)%Q -> Qceiling x = a.
Proof.
  intros H1 H2. unfold Qceiling.
  enough (Qfloor (- x) = - a) by lia.
  apply Qfloor_unique.
  - rewrite inject_Z_opp. lra.
  - replace (- a + 1) with (- (a - 1)) by lia. rewrite inject_Z_opp. lra.
Qed.

Lemma frac_bounds (x : Q) : (0 <= frac x)%Q /\ (frac x < 1)%Q.
Proof.
  unfold frac. pose proof (Qfloor_le x). pose proof (Qlt_floor x) as H2.
  rewrite inject_Z_plus in H2. change (inject_Z 1) with 1%Q in H2.
  split; lra.
Qed.

(** Where the code's [(hours + 0.99) // 1] and the ceiling agree, and where
    they part. *)
Lemma billed_hours_cases (elapsed : Q) :
  let m := Qmax 1 elapsed in
  ((frac m == 0 \/ 1 # 100 <= frac m)%Q ->
     billed_hours elapsed = billed_hours_spec elapsed) /\
  ((0 < frac m /\ frac m < 1 # 100)%Q ->
     billed_hours elapsed = billed_hours_spec elapsed - 1).
Proof.
  intros m. unfold billed_hours, billed_hours_spec. fold m.
  assert (Hm : (Qmax elapsed 1 == m)%Q) by apply Q.max_comm.
  rewrite (Qceiling_comp _ _ Hm). clear Hm.
  pose proof (frac_bounds m) as [Hf0 Hf1]. unfold frac in *.
  set (f := Qfloor m) in *.
  split.
  - intros [Hz | Hge].
    + transitivity f.
      * apply Qfloor_unique; [lra|]. rewrite inject_Z_plus.
        change (inject_Z 1) with 1%Q. lra.
      * symmetry. apply Qceiling_unique; [|lra].
        unfold Z.sub. rewrite inject_Z_plus, inject_Z_opp.
        change (inject_Z 1) with 1%Q. lra.
    + transitivity (f + 1).
      * apply Qfloor_unique.
        -- rewrite inject_Z_plus. change (inject_Z 1) with 1%Q. lra.
        -- rewrite !inject_Z_plus. change (inject_Z 1) with 1%Q. lra.
      * symmetry. apply Qceiling_unique.
        -- replace (f + 1 - 1) with f by lia. lra.
        -- rewrite inject_Z_plus. change (inject_Z 1) with 1%Q. lra.
  - intros [Hgt Hlt].
    assert (Hc : Qceiling m = f + 1).
    { apply Qceiling_unique.
      - replace (f + 1 - 1) with f by lia. lra.
      - rewrite inject_Z_plus. change (inject_Z 1) with 1%Q. lra. }
    rewrite Hc. replace (f + 1 - 1) with f by lia.
    apply Qfloor_unique; [lra|]. rewrite inject_Z_plus.
    change (inject_Z 1) with 1%Q. lra.
Qed.

Lemma get_parking_fee_billed (v : Vehicle.t) (entry exit_time : datetime) :
  Vehicle.entry_time v = Some entry ->
  Vehicle.get_parking_fee v exit_time =
    (inject_Z (billed_hours (Vehicle.hours_between entry exit_time))
     * Vehicle.rates (Vehicle.vehicle_type v))%Q.
Proof. intros H. unfold Vehicle.get_parking_fee. by rewrite H. Qed.

Lemma hours_between_add (t : datetime) (d : timedelta) :
  Vehicle.hours_between t (t + d) = (total_seconds d / 3600)%Q.
Proof. unfold Vehicle.hours_between. by replace (t + d - t) with d by lia. Qed.

Lemma hours_between_neg (entry exit_time : datetime) :
  exit_time < entry -> (Vehicle.hours_between entry exit_time < 0)%Q.
Proof.
  intros H. unfold Vehicle.hours_between, total_seconds, Qdiv, Qlt. simpl. lia.
Qed.

Lemma rates_pos (ty : VehicleType.t) : (0 < Vehicle.rates ty)%Q.
Proof. destruct ty; reflexivity. Qed.

(** What a successful [remove_vehicle] returns: the indexed record and its
    fee at the clock reading. *)
Lemma remove_vehicle_returned lot vehicle_id now lot' v fee :
  ParkingLot.remove_vehicle lot vehicle_id now = (lot', Returned (v, fee)) ->
  dict.get vehicle_id (ParkingLot.vehicles lot) = Some v /\
  fee = Vehicle.get_parking_fee v now.
Proof.
  unfold ParkingLot.remove_vehicle.
  destruct (dict.get vehicle_id (ParkingLot.vehicles lot)) as [w|]; [|done].
  destruct (if ParkingLot.truthy _ then _ else _); [|done].
  by intros [= _ <- <-].
Qed.

(** ** The slot array keeps its length *)

Lemma park_vehicle_for_frame self v now rng :
  let lot' := fst (ParkingLot.park_vehicle_for self v now rng) in
  length (ParkingLot.slots lot') = length (ParkingLot.slots self) /\
  ParkingLot.capacity lot' = ParkingLot.capacity self.
Proof.
  induction rng as [|slot_number rng IH]; simpl; [done|].
  destruct (py_index (ParkingLot.slots self) slot_number) as [k|]; [|done].
  destruct (ParkingLot.slots self !! k) as [[w|]|]; simpl; [done| |done].
  by rewrite length_insert.
Qed.

Lemma slots_ok_init capacity : slots_ok (ParkingLot.init capacity).
Proof. unfold slots_ok. simpl. apply length_replicate. Qed.

Lemma slots_ok_reset lot : slots_ok (ParkingLot.reset lot).
Proof. unfold slots_ok. simpl. apply length_replicate. Qed.

Lemma slots_ok_park lot v now :
  slots_ok lot -> slots_ok (fst (ParkingLot.park_vehicle lot v now)).
Proof.
  unfold slots_ok, ParkingLot.park_vehicle. intros H.
  destruct (ParkingLot.is_full lot); [done|].
  destruct (park_vehicle_for_frame lot v now (range (ParkingLot.capacity lot)))
    as [Hl Hc].
  congruence.
Qed.

Lemma slots_ok_remove lot vehicle_id now :
  slots_ok lot -> slots_ok (fst (ParkingLot.remove_vehicle lot vehicle_id now)).
Proof.
  unfold slots_ok, ParkingLot.remove_vehicle. intros H.
  destruct (dict.get vehicle_id (ParkingLot.vehicles lot)) as [v|]; [|done].
  simpl.
  destruct (ParkingLot.truthy (Vehicle.slot_number v)); simpl; [|done].
  destruct (py_setitem _ _ _) as [slots'|] eqn:E; simpl; [|done].
  apply py_setitem_length in E. congruence.
Qed.

Lemma reachable_slots_ok lot : reachable lot -> slots_ok lot.
Proof.
  induction 1; auto using slots_ok_init, slots_ok_reset, slots_ok_park,
    slots_ok_remove.
Qed.

(** ** First-fit admission *)

Lemma is_full_false_iff lot :
  ParkingLot.is_full lot = false <->
  exists i : nat, ParkingLot.slots lot !! i = Some None.
Proof.
  unfold ParkingLot.is_full.
  induction (ParkingLot.slots lot) as [|slot slots IH]; simpl.
  - split; [done | intros [i Hi]; by rewrite lookup_nil in Hi].
  - destruct slot as [w|]; simpl.
    + rewrite IH. split.
      * intros [i Hi]. by exists (S i).
      * intros [[|i] Hi]; [done | by exists i].
    + split; [intros _; by exists O | done].
Qed.

Lemma park_vehicle_for_first_fit self v now n a :
  (a + n = length (ParkingLot.slots self))%nat ->
  (forall j, (j < a)%nat ->
     exists w, ParkingLot.slots self !! j = Some (Some w)) ->
  (exists i : nat, ParkingLot.slots self !! i = Some None) ->
  exists i : nat,
    ParkingLot.slots self !! i = Some None /\
    (forall j, (j < i)%nat ->
       exists w, ParkingLot.slots self !! j = Some (Some w)) /\
    ParkingLot.park_vehicle_for self v now (Z.of_nat <$> seq a n) =
      (ParkingLot.place_at self i (Vehicle.set_parked v (Z.of_nat i + 1) now),
       Returned (Z.of_nat i + 1)).
Proof.
  revert a. induction n as [|n IH]; intros a Hlen Hocc [i0 Hi0].
  - exfalso. pose proof (lookup_lt_Some _ _ _ Hi0) as Hlt.
    destruct (Hocc i0) as [w Hw]; [lia | congruence].
  - simpl. rewrite py_index_nat by lia.
    destruct (ParkingLot.slots self !! a) as [[w|]|] eqn:Ha.
    + apply IH; [lia | | eauto].
      intros j Hj. destruct (decide (j = a)) as [->|Hne]; [eauto|].
      apply Hocc. lia.
    + exists a. done.
    + apply lookup_ge_None in Ha. lia.
Qed.

Lemma park_vehicle_full lot v now :
  ParkingLot.is_full lot = true ->
  ParkingLot.park_vehicle lot v now = (lot, Raised ParkingLotFullError).
Proof. intros H. unfold ParkingLot.park_vehicle. by rewrite H. Qed.

Lemma park_vehicle_places lot v now :
  slots_ok lot ->
  (exists i : nat, ParkingLot.slots lot !! i = Some None) ->
  exists i : nat,
    ParkingLot.slots lot !! i = Some None /\
    (forall j, (j < i)%nat ->
       exists w, ParkingLot.slots lot !! j = Some (Some w)) /\
    ParkingLot.park_vehicle lot v now =
      (ParkingLot.place_at lot i (Vehicle.set_parked v (Z.of_nat i + 1) now),
       Returned (Z.of_nat i + 1)).
Proof.
  intros Hok Hfree. unfold ParkingLot.park_vehicle.
  rewrite (proj2 (is_full_false_iff lot) Hfree).
  apply park_vehicle_for_first_fit; [| intros j Hj; lia | done].
  unfold slots_ok in Hok. lia.
Qed.

(** ** Index and slots in step *)

Lemma occupied_count_place slots (i : nat) v :
  slots !! i = Some None ->
  occupied_count (<[i := Some v]> slots) = S (occupied_count slots).
Proof.
  unfold occupied_count. revert i.
  induction slots as [|slot slots IH]; intros [|i] Hi; simplify_eq/=.
  - rewrite !filter_cons. simpl.
    repeat case_decide; simplify_eq/=; done.
  - rewrite !filter_cons. case_decide; simpl; by rewrite IH.
Qed.

Lemma occupied_count_free slots (i : nat) v :
  slots !! i = Some (Some v) ->
  S (occupied_count (<[i := None]> slots)) = occupied_count slots.
Proof.
  unfold occupied_count. revert i.
  induction slots as [|slot slots IH]; intros [|i] Hi; simplify_eq/=.
  - rewrite !filter_cons. simpl.
    repeat case_decide; simplify_eq/=; done.
  - rewrite !filter_cons. case_decide; simpl; by rewrite <- (IH i).
Qed.

Lemma numbered_occupied_length (g : nat -> Z) (slots : list (option Vehicle.t)) :
  length (filter (fun p : Z * option Vehicle.t => ParkingLot.is_occupied (snd p) = true)
            (imap (fun i slot => (g i, slot)) slots)) = occupied_count slots.
Proof.
  unfold occupied_count. revert g.
  induction slots as [|slot slots IH]; intros g; [done|].
  rewrite imap_cons, !filter_cons. simpl.
  case_decide; simpl; [f_equal|]; exact (IH (g ∘ S)).
Qed.

(** [len(self.get_occupied_slots())] is that count. *)
Lemma get_occupied_slots_length lot :
  length (ParkingLot.get_occupied_slots lot) = occupied_count (ParkingLot.slots lot).
Proof.
  unfold ParkingLot.get_occupied_slots, ParkingLot.numbered.
  rewrite length_fmap. apply numbered_occupied_length.
Qed.

Lemma in_sync_init capacity : in_sync (ParkingLot.init capacity).
Proof.
  split; [apply NoDup_nil_2|]. split; [done|].
  simpl. intros i v Hi. apply lookup_replicate in Hi as [? _]. done.
Qed.

Lemma in_sync_reset lot : in_sync (ParkingLot.reset lot).
Proof.
  split; [apply NoDup_nil_2|]. split; [done|].
  simpl. intros i v Hi. apply lookup_replicate in Hi as [? _]. done.
Qed.

Lemma I1_init capacity : I1 (ParkingLot.init capacity).
Proof.
  unfold I1, occupied_count. simpl.
  induction (Z.to_nat capacity) as [|n IH]; [done|].
  simpl. rewrite filter_cons. by case_decide.
Qed.

Lemma I1_reset lot : I1 (ParkingLot.reset lot).
Proof.
  unfold I1, occupied_count. simpl.
  induction (Z.to_nat (ParkingLot.capacity lot)) as [|n IH]; [done|].
  simpl. rewrite filter_cons. by case_decide.
Qed.

(** Admitting a record whose identifier is not in the index. *)
Lemma place_at_fresh lot (i : nat) v :
  in_sync lot -> I1 lot ->
  ParkingLot.slots lot !! i = Some None ->
  dict.get (Vehicle.vehicle_id v) (ParkingLot.vehicles lot) = None ->
  Vehicle.slot_number v = Some (Z.of_nat i + 1) ->
  in_sync (ParkingLot.place_at lot i v) /\ I1 (ParkingLot.place_at lot i v).
Proof.
  intros (Hnd & Hidx & Hslot) HI1 Hi Hfresh Hsn.
  pose proof (lookup_lt_Some _ _ _ Hi) as Hlt.
  split; [split; [|split]|]; simpl.
  - rewrite (dict_set_fresh _ _ _ Hfresh). unfold dict.keys.
    rewrite fmap_app. simpl. apply NoDup_app. split; [done|].
    split; [|apply NoDup_singleton].
    intros k Hk Hk'. apply list_elem_of_singleton in Hk' as ->.
    by apply dict_get_None in Hfresh.
  - intros k w Hw.
    destruct (decide (Vehicle.vehicle_id v = k)) as [<-|Hne].
    + rewrite dict_get_set_eq in Hw. injection Hw as <-.
      split; [done|]. exists i. split; [done|].
      by apply list_lookup_insert_eq.
    + rewrite dict_get_set_ne in Hw by done.
      destruct (Hidx k w Hw) as [Hid (i0 & Hsn0 & Hi0)].
      split; [done|]. exists i0. split; [done|].
      rewrite list_lookup_insert_ne; [done|]. congruence.
  - intros i0 w Hw.
    destruct (decide (i = i0)) as [<-|Hne].
    + rewrite list_lookup_insert_eq in Hw by done. injection Hw as <-.
      by rewrite dict_get_set_eq.
    + rewrite list_lookup_insert_ne in Hw by done.
      destruct (Hslot i0 w Hw) as [Hg Hsn0]. split; [|done].
      rewrite dict_get_set_ne; [done|]. congruence.
  - unfold I1 in *. simpl.
    rewrite (occupied_count_place _ _ _ Hi), <- HI1.
    rewrite (dict_set_fresh _ _ _ Hfresh). unfold dict.len.
    rewrite length_app. simpl. lia.
Qed.

(** Releasing an indexed record of a lot whose index and slots are in step. *)
Lemma remove_vehicle_in_sync lot k v now :
  in_sync lot ->
  dict.get k (ParkingLot.vehicles lot) = Some v ->
  exists i : nat,
    ParkingLot.slots lot !! i = Some (Some v) /\
    ParkingLot.remove_vehicle lot k now =
      ({| ParkingLot.capacity := ParkingLot.capacity lot;
          ParkingLot.slots := <[i := None]> (ParkingLot.slots lot);
          ParkingLot.vehicles := dict.del k (ParkingLot.vehicles lot);
          ParkingLot.hourly_rate := ParkingLot.hourly_rate lot;
          ParkingLot.revenue :=
            (ParkingLot.revenue lot + Vehicle.get_parking_fee v now)%Q;
          ParkingLot.total_vehicles := ParkingLot.total_vehicles lot |},
       Returned (v, Vehicle.get_parking_fee v now)).
Proof.
  intros (Hnd & Hidx & Hslot) Hk.
  destruct (Hidx k v Hk) as [Hid (i & Hsn & Hi)].
  exists i. split; [done|].
  pose proof (lookup_lt_Some _ _ _ Hi) as Hlt.
  unfold ParkingLot.remove_vehicle. rewrite Hk. simpl. rewrite Hsn. simpl.
  replace (Z.of_nat i + 1 =? 0) with false by (symmetry; apply Z.eqb_neq; lia).
  simpl. unfold py_setitem.
  replace (Z.of_nat i + 1 - 1) with (Z.of_nat i) by lia.
  by rewrite py_index_nat.
Qed.

Lemma remove_vehicle_preserves_sync lot k v now :
  in_sync lot ->
  dict.get k (ParkingLot.vehicles lot) = Some v ->
  let lot' := fst (ParkingLot.remove_vehicle lot k now) in
  in_sync lot' /\
  S (dict.len (ParkingLot.vehicles lot')) = dict.len (ParkingLot.vehicles lot).
Proof.
  intros Hsync Hk.
  destruct (remove_vehicle_in_sync lot k v now Hsync Hk) as (i & Hi & ->).
  destruct Hsync as (Hnd & Hidx & Hslot).
  destruct (Hidx k v Hk) as [Hid _].
  pose proof (lookup_lt_Some _ _ _ Hi) as Hlt.
  simpl. split; [split; [|split]|]; simpl.
  - by apply dict_NoDup_del.
  - intros k0 w Hw.
    destruct (decide (k = k0)) as [<-|Hne].
    { by rewrite dict_get_del_eq in Hw. }
    rewrite dict_get_del_ne in Hw by done.
    destruct (Hidx k0 w Hw) as [Hid0 (i0 & Hsn0 & Hi0)].
    split; [done|]. exists i0. split; [done|].
    rewrite list_lookup_insert_ne; [done|].
    intros <-. congruence.
  - intros i0 w Hw.
    destruct (decide (i = i0)) as [<-|Hne].
    { by rewrite list_lookup_insert_eq in Hw. }
    rewrite list_lookup_insert_ne in Hw by done.
    destruct (Hslot i0 w Hw) as [Hg Hsn0]. split; [|done].
    rewrite dict_get_del_ne; [done|].
    intros Heq. rewrite <- Heq, Hk in Hg. injection Hg as <-.
    destruct (Hslot i v Hi) as [_ Hsn]. rewrite Hsn in Hsn0.
    injection Hsn0 as Hii. lia.
  - by apply (dict_len_del _ _ v).
Qed.

Lemma remove_vehicle_preserves_I1 lot k v now :
  in_sync lot -> I1 lot ->
  dict.get k (ParkingLot.vehicles lot) = Some v ->
  I1 (fst (ParkingLot.remove_vehicle lot k now)).
Proof.
  intros Hsync HI1 Hk.
  destruct (remove_vehicle_in_sync lot k v now Hsync Hk) as (i & Hi & ->).
  unfold I1 in *. simpl.
  pose proof (occupied_count_free _ _ _ Hi).
  pose proof (dict_len_del _ _ _ Hk). lia.
Qed.

Lemma remove_vehicle_unknown lot k now :
  dict.get k (ParkingLot.vehicles lot) = None ->
  ParkingLot.remove_vehicle lot k now = (lot, Raised ValueError).
Proof. intros H. unfold ParkingLot.remove_vehicle. by rewrite H. Qed.

Lemma in_sync_no_index_empty lot :
  in_sync lot -> ParkingLot.vehicles lot = dict.empty ->
  ParkingLot.is_empty lot = true.
Proof.
  intros (_ & _ & Hslot) Hnil. unfold ParkingLot.is_empty.
  apply forallb_forall. intros slot Hin.
  apply list_elem_of_In, list_elem_of_lookup in Hin as [i Hi].
  destruct slot as [w|]; [|done].
  destruct (Hslot i w Hi) as [Hg _]. by rewrite Hnil in Hg.
Qed.

Lemma in_sync_empty_no_index lot :
  in_sync lot -> ParkingLot.is_empty lot = true ->
  ParkingLot.vehicles lot = dict.empty.
Proof.
  intros (_ & Hidx & _) Hempty.
  destruct (ParkingLot.vehicles lot) as [|[k v] d] eqn:E; [done|].
  destruct (Hidx k v) as [_ (i & _ & Hi)].
  { simpl. by rewrite String.eqb_refl. }
  unfold ParkingLot.is_empty in Hempty.
  rewrite forallb_forall in Hempty.
  apply list_elem_of_lookup_2, list_elem_of_In, Hempty in Hi. done.
Qed.

(** A lot whose index and slots are in step satisfies I1 after every admission
    of an identifier that is not parked, whether it finds a slot or not. *)
Lemma park_vehicle_fresh_preserves lot v now :
  slots_ok lot -> in_sync lot -> I1 lot ->
  dict.get (Vehicle.vehicle_id v) (ParkingLot.vehicles lot) = None ->
  let lot' := fst (ParkingLot.park_vehicle lot v now) in
  in_sync lot' /\ I1 lot'.
Proof.
  intros Hok Hsync HI1 Hfresh.
  destruct (ParkingLot.is_full lot) eqn:Hfull.
  - rewrite (park_vehicle_full _ _ _ Hfull). done.
  - apply is_full_false_iff in Hfull.
    destruct (park_vehicle_places lot v now Hok Hfull) as (i & Hi & _ & ->).
    simpl. by apply place_at_fresh.
Qed.

(** ** Emergency clear *)

Lemma remove_vehicle_frame lot k now :
  let lot' := fst (ParkingLot.remove_vehicle lot k now) in
  ParkingLot.capacity lot' = ParkingLot.capacity lot /\
  ParkingLot.total_vehicles lot' = ParkingLot.total_vehicles lot.
Proof.
  unfold ParkingLot.remove_vehicle.
  destruct (dict.get k (ParkingLot.vehicles lot)) as [v|]; [|done].
  by destruct (if ParkingLot.truthy _ then _ else _).
Qed.

Lemma emergency_clear_while_in_sync fuel clock lot :
  in_sync lot ->
  (dict.len (ParkingLot.vehicles lot) <= fuel)%nat ->
  exists lot',
    AutomatedParkingLotSystem.emergency_clear_while fuel clock lot = Some lot' /\
    in_sync lot' /\
    ParkingLot.vehicles lot' = dict.empty /\
    ParkingLot.capacity lot' = ParkingLot.capacity lot /\
    ParkingLot.total_vehicles lot' = ParkingLot.total_vehicles lot /\
    length (ParkingLot.slots lot') = length (ParkingLot.slots lot).
Proof.
  revert clock lot. induction fuel as [|fuel IH]; intros clock lot Hsync Hlen.
  - destruct (ParkingLot.vehicles lot) as [|p d] eqn:E; [|simpl in Hlen; lia].
    exists lot. simpl. by rewrite E.
  - simpl.
    destruct (dict.keys (ParkingLot.vehicles lot)) as [|k ks] eqn:Ek.
    + exists lot. apply fmap_nil_inv in Ek. done.
    + destruct (dict_first_key _ _ _ Ek) as [v Hk].
      destruct (remove_vehicle_preserves_sync lot k v (clock O) Hsync Hk)
        as [Hsync' Hlen'].
      destruct (remove_vehicle_frame lot k (clock O)) as [Hcap Htot].
      assert (Hl : length (ParkingLot.slots
                             (fst (ParkingLot.remove_vehicle lot k (clock O)))) =
                   length (ParkingLot.slots lot)).
      { destruct (remove_vehicle_in_sync lot k v (clock O) Hsync Hk)
          as (i & _ & ->). simpl. apply length_insert. }
      destruct (ParkingLot.remove_vehicle lot k (clock O)) as [lot1 r].
      simpl in *.
      destruct (IH (fun n => clock (S n)) lot1 Hsync') as (lot' & Hrun & H');
        [lia|].
      exists lot'. split; [done|].
      destruct H' as (? & ? & ? & ? & ?).
      split; [done|]. split; [done|]. split; [congruence|]. split; congruence.
Qed.

(** * Properties of the specification *)

(** ** Fees *)

(** C1 (as amended).  A release of a vehicle whose arrival timestamp is set,
    after a stay below 2^21 hours, returns the fee
    [floor(max(elapsed, 1) + 0.99) * rate], [elapsed] being
    [now - arrival] in hours and [rate] the category's hourly rate.  That is
    [ceil(max(elapsed, 1)) * rate] when the fractional part of the billed
    duration is zero or at least 0.01 hour, and one hour less than that
    when the fractional part lies strictly between 0 and 0.01 hour.  A release
    0.1 hour after arrival is charged one hour, a release 1.5 hours after
    arrival two hours. *)
Theorem remove_vehicle_fee lot vehicle_id now lot' v fee arrival :
  ParkingLot.remove_vehicle lot vehicle_id now = (lot', Returned (v, fee)) ->
  Vehicle.entry_time v = Some arrival ->
  now - arrival < exact_stay ->
  let elapsed := Vehicle.hours_between arrival now in
  let rate := Vehicle.rates (Vehicle.vehicle_type v) in
  let m := Qmax 1 elapsed in
  (fee == inject_Z (Qfloor (m + (99 # 100))) * rate)%Q /\
  ((frac m == 0 \/ 1 # 100 <= frac m)%Q ->
     (fee == inject_Z (billed_hours_spec elapsed) * rate)%Q) /\
  ((0 < frac m /\ frac m < 1 # 100)%Q ->
     (fee == inject_Z (billed_hours_spec elapsed - 1) * rate)%Q) /\
  (now = arrival + hour / 10 -> (fee == 1 * rate)%Q) /\
  (now = arrival + hour + hour / 2 -> (fee == 2 * rate)%Q).
Proof.
  intros Hrel Harr _ elapsed rate m.
  apply remove_vehicle_returned in Hrel as [_ ->].
  rewrite (get_parking_fee_billed v arrival now Harr).
  fold elapsed rate.
  destruct (billed_hours_cases elapsed) as [Hagree Hless]. fold m in Hagree, Hless.
  split; [reflexivity|]. split; [|split; [|split]].
  - intros H. by rewrite (Hagree H).
  - intros H. by rewrite (Hless H).
  - intros ->. subst elapsed.
    replace (arrival + hour / 10) with (arrival + 360000000) by reflexivity.
    rewrite hours_between_add. reflexivity.
  - intros ->. subst elapsed.
    replace (arrival + hour + hour / 2) with (arrival + 5400000000)
      by (change (hour / 2) with 1800000000; unfold hour; lia).
    rewrite hours_between_add. reflexivity.
Qed.

(** The car of [lot_one_car], released an hour and a half after it arrived,
    pays two hours at the car rate. *)
Lemma remove_vehicle_fee_witness :
  exists lot' v fee,
    ParkingLot.remove_vehicle lot_one_car "ABC123" (0 + hour + hour / 2) =
      (lot', Returned (v, fee)) /\
    Vehicle.entry_time v = Some 0 /\
    0 + hour + hour / 2 - 0 < exact_stay /\
    (fee == 2 * 2)%Q.
Proof.
  eexists _, _, _. split; [reflexivity|]. split; [reflexivity|].
  split; [reflexivity|].
  refine (proj2 (proj2 (proj2 (proj2
    (remove_vehicle_fee lot_one_car "ABC123" (0 + hour + hour / 2) _ _ _ 0
       eq_refl eq_refl eq_refl)))) eq_refl).
Defined.

(** C1, as stated, fails: a car released one hour and 18 seconds after its
    arrival is charged one hour, where the ceiling would charge two. *)
Lemma remove_vehicle_fee_not_ceiling :
  exists lot' v fee,
    ParkingLot.remove_vehicle lot_one_car "ABC123" (hour + 18 * second) =
      (lot', Returned (v, fee)) /\
    Vehicle.entry_time v = Some 0 /\
    (fee == 1 * Vehicle.rates (Vehicle.vehicle_type v))%Q /\
    ~ (fee == inject_Z (billed_hours_spec
                          (Vehicle.hours_between 0%Z (hour + 18 * second)%Z))
              * Vehicle.rates (Vehicle.vehicle_type v))%Q.
Proof.
  eexists _, _, _. split; [reflexivity|]. split; [reflexivity|].
  split; [reflexivity|]. intros H. vm_compute in H. discriminate.
Qed.

(** C9.  A vehicle whose arrival timestamp was never set owes exactly 0 at
    every exit time; the computation has no failing path. *)
Theorem get_parking_fee_no_entry_time (v : Vehicle.t) (exit_time : datetime) :
  Vehicle.entry_time v = None ->
  Vehicle.get_parking_fee v exit_time = 0%Q.
Proof. intros H. unfold Vehicle.get_parking_fee. by rewrite H. Qed.

Lemma get_parking_fee_no_entry_time_witness :
  Vehicle.entry_time sample_car = None /\
  Vehicle.get_parking_fee sample_car hour = 0%Q.
Proof.
  split; [reflexivity|].
  exact (get_parking_fee_no_entry_time sample_car hour eq_refl).
Defined.

(** C10.  When the exit time is earlier than the arrival, the fee is exactly
    one hour at the category's rate, at [get_parking_fee] and at every
    release that returns; it is positive. *)
Theorem get_parking_fee_negative_elapsed (v : Vehicle.t) (arrival exit_time : datetime) :
  Vehicle.entry_time v = Some arrival ->
  exit_time < arrival ->
  let rate := Vehicle.rates (Vehicle.vehicle_type v) in
  (Vehicle.get_parking_fee v exit_time == 1 * rate)%Q /\
  (0 < Vehicle.get_parking_fee v exit_time)%Q /\
  (forall lot vehicle_id lot' fee,
     ParkingLot.remove_vehicle lot vehicle_id exit_time = (lot', Returned (v, fee)) ->
     (fee == 1 * rate)%Q).
Proof.
  intros Harr Hlt rate.
  assert (Hfee : (Vehicle.get_parking_fee v exit_time == 1 * rate)%Q).
  { rewrite (get_parking_fee_billed v arrival exit_time Harr). fold rate.
    unfold billed_hours.
    pose proof (hours_between_neg arrival exit_time Hlt) as Hneg.
    assert (Hmax : (Qmax 1 (Vehicle.hours_between arrival exit_time) == 1)%Q)
      by (apply Q.max_l; lra).
    assert (Hsum : (Qmax 1 (Vehicle.hours_between arrival exit_time) + (99 # 100)
                    == 1 + (99 # 100))%Q) by (rewrite Hmax; reflexivity).
    rewrite (Qfloor_comp _ _ Hsum). reflexivity. }
  split; [done|]. split.
  - rewrite Hfee. pose proof (rates_pos (Vehicle.vehicle_type v)). fold rate in H. lra.
  - intros lot vehicle_id lot' fee Hrel.
    apply remove_vehicle_returned in Hrel as [_ ->]. done.
Qed.

Lemma get_parking_fee_negative_elapsed_witness :
  let v := Vehicle.set_parked sample_suv 1 hour in
  Vehicle.entry_time v = Some hour /\ 0 < hour /\
  (Vehicle.get_parking_fee v 0%Z == 5 # 2)%Q.
Proof.
  split; [reflexivity|]. split; [reflexivity|].
  exact (proj1 (get_parking_fee_negative_elapsed
                  (Vehicle.set_parked sample_suv 1 hour) hour 0 eq_refl eq_refl)).
Defined.

(** ** Admission *)

(** C4.  On a lot with at least one empty cell, [park_vehicle] puts the
    vehicle into the lowest-indexed empty cell, every cell before it being
    occupied, and returns that cell's index plus one; no other cell
    changes.  With slots [occupied, free, occupied, free] the admission
    lands in slot 2. *)
Theorem park_vehicle_first_fit lot v now :
  reachable lot ->
  (exists i : nat, ParkingLot.slots lot !! i = Some None) ->
  (exists (i : nat) lot',
     ParkingLot.park_vehicle lot v now = (lot', Returned (Z.of_nat i + 1)) /\
     ParkingLot.slots lot !! i = Some None /\
     (forall j, (j < i)%nat ->
        exists w, ParkingLot.slots lot !! j = Some (Some w)) /\
     ParkingLot.slots lot' =
       <[i := Some (Vehicle.set_parked v (Z.of_nat i + 1) now)]> (ParkingLot.slots lot)) /\
  (ParkingLot.is_occupied <$> ParkingLot.slots lot = [true; false; true; false] ->
   snd (ParkingLot.park_vehicle lot v now) = Returned 2).
Proof.
  intros Hreach Hfree.
  destruct (park_vehicle_places lot v now (reachable_slots_ok lot Hreach) Hfree)
    as (i & Hi & Hbefore & Hpark).
  split.
  - exists i, (ParkingLot.place_at lot i (Vehicle.set_parked v (Z.of_nat i + 1) now)).
    done.
  - intros Hshape. rewrite Hpark. simpl.
    assert (Hocc : forall j, (ParkingLot.is_occupied <$> ParkingLot.slots lot) !! j =
                     ParkingLot.is_occupied <$> (ParkingLot.slots lot !! j))
      by (intros j; apply list_lookup_fmap).
    rewrite Hshape in Hocc.
    destruct i as [|[|i]]; [| done |].
    + specialize (Hocc 0%nat). rewrite Hi in Hocc. done.
    + destruct (Hbefore 1%nat) as [w Hw]; [lia|].
      specialize (Hocc 1%nat). rewrite Hw in Hocc. done.
Qed.

Lemma lot_gaps_reachable : reachable lot_gaps.
Proof.
  unfold lot_gaps, after_remove, after_park.
  repeat first [apply reach_remove | apply reach_park | apply reach_init].
Qed.

Lemma park_vehicle_first_fit_witness :
  reachable lot_gaps /\
  (exists i : nat, ParkingLot.slots lot_gaps !! i = Some None) /\
  ParkingLot.is_occupied <$> ParkingLot.slots lot_gaps = [true; false; true; false] /\
  snd (ParkingLot.park_vehicle lot_gaps same_id_car hour) = Returned 2.
Proof.
  split; [exact lot_gaps_reachable|].
  split; [exists 1%nat; reflexivity|].
  split; [reflexivity|].
  exact (proj2 (park_vehicle_first_fit lot_gaps same_id_car hour
                  lot_gaps_reachable (ex_intro _ 1%nat eq_refl)) eq_refl).
Defined.

(** A sibling path: the entry-form handler turns away an identifier that is
    in the index and leaves the lot as it was. *)
Lemma handler_park_vehicle_duplicate lot vehicle_id owner_name ty color now :
  vehicle_id <> ""%string ->
  dict.contains vehicle_id (ParkingLot.vehicles lot) = true ->
  AutomatedParkingLotSystem.park_vehicle lot vehicle_id owner_name ty color now =
    (lot, AutomatedParkingLotSystem.AlreadyParked).
Proof.
  intros Hne Hin. unfold AutomatedParkingLotSystem.park_vehicle.
  destruct (String.eqb_spec vehicle_id ""); [done|]. by rewrite Hin.
Qed.

(** [ParkingLot.park_vehicle] does not look at the index: whenever a cell is
    free the call returns a slot, whatever the identifier. *)
Lemma park_vehicle_ignores_index lot v now :
  slots_ok lot -> ParkingLot.is_full lot = false ->
  exists slot_number,
    snd (ParkingLot.park_vehicle lot v now) = Returned slot_number /\
    ParkingLot.total_vehicles (fst (ParkingLot.park_vehicle lot v now)) =
      ParkingLot.total_vehicles lot + 1.
Proof.
  intros Hok Hfull. apply is_full_false_iff in Hfull.
  destruct (park_vehicle_places lot v now Hok Hfull) as (i & _ & _ & ->).
  by exists (Z.of_nat i + 1).
Qed.

(** C2, on the code.  [lot_one_car] has "ABC123" in its index.  Parking a
    second vehicle with that identifier does not fail: it returns slot 2,
    counts one more admission, replaces the index entry by the second record
    and leaves the first record in slot 1 with no index entry.  [quick_park]
    reaches this with a drawn identifier that is already parked, while the
    entry-form handler turns the same identifier away. *)
Theorem park_vehicle_duplicate_accepted :
  dict.contains "ABC123" (ParkingLot.vehicles lot_one_car) = true /\
  exists lot2,
    ParkingLot.park_vehicle lot_one_car same_id_car hour = (lot2, Returned 2) /\
    lot2 <> lot_one_car /\
    ParkingLot.total_vehicles lot2 = ParkingLot.total_vehicles lot_one_car + 1 /\
    dict.get "ABC123" (ParkingLot.vehicles lot2) =
      Some (Vehicle.set_parked same_id_car 2 hour) /\
    ParkingLot.slots lot2 !! 0%nat = Some (Some (Vehicle.set_parked sample_car 1 0)) /\
    ParkingLot.slots lot2 !! 1%nat = Some (Some (Vehicle.set_parked same_id_car 2 hour)) /\
    AutomatedParkingLotSystem.quick_park lot_one_car VehicleType.CAR
        "ABC123" "Jane Brown" "#2980b9" hour =
      (lot2, AutomatedParkingLotSystem.ParkedInSlot 2) /\
    AutomatedParkingLotSystem.park_vehicle lot_one_car
        "ABC123" "Jane Brown" VehicleType.CAR "#2980b9" hour =
      (lot_one_car, AutomatedParkingLotSystem.AlreadyParked).
Proof.
  split; [reflexivity|].
  eexists. split; [reflexivity|].
  split; [discriminate|].
  repeat split; reflexivity.
Qed.

(** C5, on the code.  Two admissions of one identifier, well within the
    capacity of five: I1 holds at the start and after the first call, and
    fails after the second, where the index has one entry for two occupied
    slots.  The release of that identifier then frees one slot only. *)
Theorem duplicate_admission_breaks_I1 :
  let lot0 := ParkingLot.init 5 in
  let lot1 := after_park lot0 sample_car 0 in
  let lot2 := after_park lot1 same_id_car hour in
  let lot3 := after_remove lot2 "ABC123" (2 * hour) in
  I1 lot0 /\ I1 lot1 /\ ~ I1 lot2 /\
  ParkingLot.get_total_vehicles_parked lot2 = 1%nat /\
  length (ParkingLot.get_occupied_slots lot2) = 2%nat /\
  ~ I1 lot3 /\
  ParkingLot.get_total_vehicles_parked lot3 = 0%nat /\
  ParkingLot.get_occupied_slots lot3 = [1].
Proof.
  cbv zeta. unfold I1.
  split; [reflexivity|]. split; [reflexivity|].
  split; [vm_compute; discriminate|].
  split; [reflexivity|]. split; [reflexivity|].
  split; [vm_compute; discriminate|].
  split; reflexivity.
Qed.

(** The invariant the claim names does hold along every run in which no
    admission carries an identifier that is parked at that moment. *)
Lemma fresh_run_invariants lot :
  fresh_run lot -> slots_ok lot /\ in_sync lot /\ I1 lot.
Proof.
  induction 1 as [capacity | lot v now _ (Hok & Hsync & HI1) Hfresh
                  | lot k now _ (Hok & Hsync & HI1) | lot _ _].
  - auto using slots_ok_init, in_sync_init, I1_init.
  - split; [by apply slots_ok_park|].
    by apply park_vehicle_fresh_preserves.
  - split; [by apply slots_ok_remove|].
    destruct (dict.get k (ParkingLot.vehicles lot)) as [v|] eqn:Hk.
    + split; [by apply (remove_vehicle_preserves_sync lot k v)|].
      by apply (remove_vehicle_preserves_I1 lot k v).
    + by rewrite (remove_vehicle_unknown _ _ _ Hk).
  - auto using slots_ok_reset, in_sync_reset, I1_reset.
Qed.

(** ** Construction, reset and slot status *)

(** C6 (as amended).  Constructing a lot with a capacity below one does not
    fail: it returns a lot that records the capacity as given and has no
    slots, an empty index and zero counters.  That lot is full and empty at
    once: every admission fails with [ParkingLotFullError] and leaves it
    unchanged, and every slot status is [None]. *)
Theorem construct_below_one (capacity : Z) :
  capacity < 1 ->
  exists lot,
    construct capacity = Returned lot /\
    ParkingLot.capacity lot = capacity /\
    ParkingLot.slots lot = [] /\
    ParkingLot.vehicles lot = dict.empty /\
    ParkingLot.revenue lot = 0%Q /\
    ParkingLot.total_vehicles lot = 0 /\
    ParkingLot.is_full lot = true /\
    ParkingLot.is_empty lot = true /\
    (forall v now,
       ParkingLot.park_vehicle lot v now = (lot, Raised ParkingLotFullError)) /\
    (forall slot_number,
       ParkingLot.get_slot_status lot slot_number = Returned None).
Proof.
  intros Hlt. exists (ParkingLot.init capacity).
  assert (Hslots : ParkingLot.slots (ParkingLot.init capacity) = []).
  { simpl. by replace (Z.to_nat capacity) with O by lia. }
  assert (Hfull : ParkingLot.is_full (ParkingLot.init capacity) = true).
  { unfold ParkingLot.is_full. by rewrite Hslots. }
  do 6 (split; [done|]). split; [done|].
  split; [unfold ParkingLot.is_empty; by rewrite Hslots|].
  split.
  - intros v now. by apply park_vehicle_full.
  - intros n. unfold ParkingLot.get_slot_status. simpl.
    destruct (1 <=? n) eqn:E1; [|done].
    destruct (n <=? capacity) eqn:E2; [|done].
    apply Z.leb_le in E1, E2. lia.
Qed.

Lemma construct_below_one_witness :
  0 < 1 /\
  exists lot,
    construct 0 = Returned lot /\
    ParkingLot.slots lot = [] /\
    ParkingLot.park_vehicle lot sample_car hour = (lot, Raised ParkingLotFullError).
Proof.
  split; [reflexivity|].
  destruct (construct_below_one 0 eq_refl)
    as (lot & Hc & _ & Hs & _ & _ & _ & _ & _ & Hpark & _).
  exists lot. split; [exact Hc|]. split; [exact Hs|]. apply Hpark.
Defined.

(** C6, as stated, fails: constructing a lot of capacity 0 raises nothing
    and returns a lot. *)
Lemma construct_zero_returns :
  0 < 1 /\
  (exists lot, construct 0 = Returned lot) /\
  ~ (exists e, construct 0 = Raised e).
Proof.
  split; [reflexivity|]. split; [by eexists|].
  intros [e He]. discriminate He.
Qed.

(** C7.  [reset] replaces the slot array by [capacity] empty cells and
    clears the index; revenue, the admission counter, the capacity (and the
    hourly rate) keep their values. *)
Theorem reset_frame (lot : ParkingLot.t) :
  let lot' := ParkingLot.reset lot in
  ParkingLot.slots lot' = replicate (Z.to_nat (ParkingLot.capacity lot)) None /\
  (forall slot, slot ∈ ParkingLot.slots lot' -> slot = None) /\
  ParkingLot.is_empty lot' = true /\
  ParkingLot.vehicles lot' = dict.empty /\
  ParkingLot.get_total_vehicles_parked lot' = 0%nat /\
  ParkingLot.revenue lot' = ParkingLot.revenue lot /\
  ParkingLot.total_vehicles lot' = ParkingLot.total_vehicles lot /\
  ParkingLot.capacity lot' = ParkingLot.capacity lot /\
  ParkingLot.hourly_rate lot' = ParkingLot.hourly_rate lot.
Proof.
  simpl. split; [done|]. split.
  { intros slot Hin. by apply elem_of_replicate in Hin as [-> _]. }
  split; [|done].
  unfold ParkingLot.is_empty. simpl.
  induction (Z.to_nat (ParkingLot.capacity lot)) as [|n IH]; [done|]. done.
Qed.

(** C8.  On every lot the constructor and the methods build,
    [get_slot_status] returns for every integer: the content of cell
    [slot_number - 1] when [1 <= slot_number <= capacity], [None] otherwise;
    it never raises. *)
Theorem get_slot_status_total (lot : ParkingLot.t) (slot_number : Z) :
  reachable lot ->
  (1 <= slot_number <= ParkingLot.capacity lot ->
     exists cell,
       ParkingLot.slots lot !! Z.to_nat (slot_number - 1) = Some cell /\
       ParkingLot.get_slot_status lot slot_number = Returned cell) /\
  (~ (1 <= slot_number <= ParkingLot.capacity lot) ->
     ParkingLot.get_slot_status lot slot_number = Returned None) /\
  (exists r, ParkingLot.get_slot_status lot slot_number = Returned r).
Proof.
  intros Hreach. apply reachable_slots_ok in Hreach. unfold slots_ok in Hreach.
  assert (Hin : 1 <= slot_number <= ParkingLot.capacity lot ->
     exists cell,
       ParkingLot.slots lot !! Z.to_nat (slot_number - 1) = Some cell /\
       ParkingLot.get_slot_status lot slot_number = Returned cell).
  { intros [H1 H2]. unfold ParkingLot.get_slot_status.
    replace (1 <=? slot_number) with true by (symmetry; apply Z.leb_le; lia).
    replace (slot_number <=? ParkingLot.capacity lot) with true
      by (symmetry; apply Z.leb_le; lia).
    simpl. unfold py_getitem.
    rewrite py_index_in_range by lia.
    destruct (ParkingLot.slots lot !! Z.to_nat (slot_number - 1)) as [cell|] eqn:E.
    - by exists cell.
    - apply lookup_ge_None in E. lia. }
  assert (Hout : ~ (1 <= slot_number <= ParkingLot.capacity lot) ->
     ParkingLot.get_slot_status lot slot_number = Returned None).
  { intros Hn. unfold ParkingLot.get_slot_status.
    destruct (1 <=? slot_number) eqn:E1; [|done].
    destruct (slot_number <=? ParkingLot.capacity lot) eqn:E2; [|done].
    apply Z.leb_le in E1, E2. lia. }
  split; [done|]. split; [done|].
  destruct (decide (1 <= slot_number <= ParkingLot.capacity lot)) as [Hy|Hn].
  - destruct (Hin Hy) as (cell & _ & ->). by eexists.
  - rewrite (Hout Hn). by eexists.
Qed.

Lemma lot_two_reachable : reachable lot_two.
Proof.
  unfold lot_two, lot_one_car, after_park.
  repeat first [apply reach_park | apply reach_init].
Qed.

Lemma get_slot_status_total_witness :
  reachable lot_two /\
  ParkingLot.get_slot_status lot_two 2 =
    Returned (Some (Vehicle.set_parked sample_bike 2 0)) /\
  ParkingLot.get_slot_status lot_two 6 = Returned None /\
  ParkingLot.get_slot_status lot_two 0 = Returned None.
Proof.
  split; [exact lot_two_reachable|].
  pose proof (get_slot_status_total lot_two 2 lot_two_reachable) as (H2 & _ & _).
  pose proof (get_slot_status_total lot_two 6 lot_two_reachable) as (_ & H6 & _).
  pose proof (get_slot_status_total lot_two 0 lot_two_reachable) as (_ & H0 & _).
  split.
  - destruct H2 as (cell & Hcell & ->); [by vm_compute|].
    vm_compute in Hcell. by injection Hcell as <-.
  - split; [apply H6 | apply H0]; vm_compute; intros [? ?]; done.
Defined.

(** ** Emergency clear *)

Lemma lot_two_fresh_run : fresh_run lot_two.
Proof.
  unfold lot_two, lot_one_car, after_park.
  repeat first [apply fresh_park; [|reflexivity] | apply fresh_init].
Qed.

(** C3, on the code.  [lot_two] has two occupied slots and no revenue.  A
    confirmed emergency clear, one hour after the car and the bike arrived,
    does empty the lot and keeps the admission counter, but it computes both
    fees (2 for the car, 1 for the bike) and adds them to the revenue, which
    goes from 0 to 3 and is shown so by the display that follows, against
    the handler's own dialog ("Parking fees will NOT be collected"). *)
Theorem emergency_clear_accrues_fees :
  length (ParkingLot.get_occupied_slots lot_two) = 2%nat /\
  exists lot' occupancy_rate,
    AutomatedParkingLotSystem.emergency_clear 2 (fun _ => hour) true lot_two =
      Some (lot', Some (AutomatedParkingLotSystem.Shown 5 0 occupancy_rate
                          (ParkingLot.revenue lot') 2)) /\
    ParkingLot.is_empty lot' = true /\
    ParkingLot.vehicles lot' = dict.empty /\
    ParkingLot.total_vehicles lot' = ParkingLot.total_vehicles lot_two /\
    (ParkingLot.revenue lot_two == 0)%Q /\
    (ParkingLot.revenue lot' == 3)%Q /\
    ~ (ParkingLot.revenue lot' == ParkingLot.revenue lot_two)%Q.
Proof.
  split; [reflexivity|].
  eexists _, _. split; [reflexivity|].
  do 5 (split; [reflexivity|]).
  intros H. vm_compute in H. discriminate.
Qed.

(** * Further properties of the code *)

(** ** Fees and counters *)

Lemma billed_hours_ge_1 (elapsed : Q) : 1 <= billed_hours elapsed.
Proof.
  unfold billed_hours.
  transitivity (Qfloor 1); [vm_compute; discriminate|].
  apply Qfloor_resp_le.
  pose proof (Q.le_max_l 1 elapsed). lra.
Qed.

Lemma get_parking_fee_nonneg (v : Vehicle.t) (exit_time : datetime) :
  (0 <= Vehicle.get_parking_fee v exit_time)%Q.
Proof.
  destruct (Vehicle.entry_time v) as [entry|] eqn:E.
  - rewrite (get_parking_fee_billed v entry exit_time E).
    apply Qmult_le_0_compat.
    + change 0%Q with (inject_Z 0). rewrite <- Zle_Qle.
      pose proof (billed_hours_ge_1 (Vehicle.hours_between entry exit_time)). lia.
    + apply Qlt_le_weak, rates_pos.
  - unfold Vehicle.get_parking_fee. rewrite E. apply Qle_refl.
Qed.

Lemma hours_between_mono (entry e1 e2 : datetime) :
  e1 <= e2 ->
  (Vehicle.hours_between entry e1 <= Vehicle.hours_between entry e2)%Q.
Proof.
  intros H. unfold Vehicle.hours_between, total_seconds, Qdiv, Qle. simpl. lia.
Qed.

(** X1.  A later exit never costs less: for one vehicle the fee is monotone
    in the exit time (whether or not its arrival is set). *)
Theorem get_parking_fee_monotone (v : Vehicle.t) (exit1 exit2 : datetime) :
  exit1 <= exit2 ->
  (Vehicle.get_parking_fee v exit1 <= Vehicle.get_parking_fee v exit2)%Q.
Proof.
  intros Hle. destruct (Vehicle.entry_time v) as [entry|] eqn:E.
  - rewrite !(get_parking_fee_billed v entry _ E).
    apply Qmult_le_compat_r; [|apply Qlt_le_weak, rates_pos].
    rewrite <- Zle_Qle. unfold billed_hours. apply Qfloor_resp_le.
    apply Qplus_le_l. apply Q.max_le_compat_l.
    by apply hours_between_mono.
  - unfold Vehicle.get_parking_fee. rewrite E. apply Qle_refl.
Qed.

Lemma get_parking_fee_monotone_witness :
  hour <= 3 * hour /\
  (Vehicle.get_parking_fee (Vehicle.set_parked sample_truck 1 0%Z) hour
   <= Vehicle.get_parking_fee (Vehicle.set_parked sample_truck 1 0%Z) (3 * hour)%Z)%Q.
Proof.
  assert (H : hour <= 3 * hour) by (vm_compute; discriminate).
  split; [exact H|].
  exact (get_parking_fee_monotone (Vehicle.set_parked sample_truck 1 0)
           hour (3 * hour) H).
Defined.

(** X2.  For a vehicle whose arrival is set and a stay below 2^21 hours the
    fee is a whole number [k] of
    hours at the category's rate, with [k >= 1]; the billed duration
    [max(1, elapsed)] lies in [[k - 0.99, k + 0.01)], so the fee is never
    below one hour's rate and never covers less than the time parked by more
    than 0.01 hour. *)
Theorem get_parking_fee_bounds (v : Vehicle.t) (arrival exit_time : datetime) :
  Vehicle.entry_time v = Some arrival ->
  exit_time - arrival < exact_stay ->
  let rate := Vehicle.rates (Vehicle.vehicle_type v) in
  let m := Qmax 1 (Vehicle.hours_between arrival exit_time) in
  exists k : Z,
    1 <= k /\
    Vehicle.get_parking_fee v exit_time = (inject_Z k * rate)%Q /\
    (inject_Z k - (99 # 100) <= m)%Q /\
    (m < inject_Z k + (1 # 100))%Q /\
    (rate <= Vehicle.get_parking_fee v exit_time)%Q.
Proof.
  intros Harr _ rate m.
  exists (billed_hours (Vehicle.hours_between arrival exit_time)).
  pose proof (billed_hours_ge_1 (Vehicle.hours_between arrival exit_time)) as Hk.
  split; [done|].
  split; [by apply get_parking_fee_billed|].
  unfold billed_hours in *. fold m in Hk |- *.
  pose proof (Qfloor_le (m + (99 # 100))) as F1.
  pose proof (Qlt_floor (m + (99 # 100))) as F2.
  rewrite inject_Z_plus in F2. change (inject_Z 1) with 1%Q in F2.
  split; [lra|]. split; [lra|].
  rewrite (get_parking_fee_billed v arrival exit_time Harr).
  unfold billed_hours. fold m rate.
  pose proof (rates_pos (Vehicle.vehicle_type v)) as Hr. fold rate in Hr.
  rewrite Zle_Qle in Hk. change (inject_Z 1) with 1%Q in Hk.
  apply Qle_trans with (1 * rate)%Q; [rewrite Qmult_1_l; apply Qle_refl|].
  apply Qmult_le_compat_r; [done | lra].
Qed.

Lemma get_parking_fee_bounds_witness :
  let v := Vehicle.set_parked sample_bike 2 0 in
  Vehicle.entry_time v = Some 0 /\
  2 * hour + 30 * second - 0 < exact_stay /\
  exists k : Z, 1 <= k /\
    Vehicle.get_parking_fee v (2 * hour + 30 * second) = (inject_Z k * 1)%Q.
Proof.
  split; [reflexivity|]. split; [reflexivity|].
  destruct (get_parking_fee_bounds (Vehicle.set_parked sample_bike 2 0) 0
              (2 * hour + 30 * second) eq_refl eq_refl) as (k & Hk & Hfee & _).
  exists k. split; [exact Hk | exact Hfee].
Defined.

Lemma park_vehicle_for_cases self v now rng :
  (exists e, ParkingLot.park_vehicle_for self v now rng = (self, Raised e)) \/
  (exists (k : nat) v' n,
     ParkingLot.slots self !! k = Some None /\
     ParkingLot.park_vehicle_for self v now rng =
       (ParkingLot.place_at self k v', Returned n)).
Proof.
  induction rng as [|slot_number rng IH]; simpl; [left; by eexists|].
  destruct (py_index (ParkingLot.slots self) slot_number) as [k|];
    [|left; by eexists].
  destruct (ParkingLot.slots self !! k) as [[w|]|] eqn:Hk;
    [done | | left; by eexists].
  right. by eexists k, _, _.
Qed.

Lemma park_vehicle_cases lot v now :
  (exists e, ParkingLot.park_vehicle lot v now = (lot, Raised e)) \/
  (exists (k : nat) v' n,
     ParkingLot.slots lot !! k = Some None /\
     ParkingLot.park_vehicle lot v now =
       (ParkingLot.place_at lot k v', Returned n)).
Proof.
  unfold ParkingLot.park_vehicle.
  destruct (ParkingLot.is_full lot); [left; by eexists|].
  apply park_vehicle_for_cases.
Qed.

Lemma occupied_count_insert_None slots (i : nat) :
  (occupied_count (<[i := None]> slots) <= occupied_count slots)%nat /\
  (occupied_count slots <= S (occupied_count (<[i := None]> slots)))%nat.
Proof.
  unfold occupied_count. revert i.
  induction slots as [|slot slots IH]; intros [|i]; simpl; [lia | lia | |].
  - rewrite !filter_cons. repeat case_decide; simplify_eq/=; lia.
  - rewrite !filter_cons. specialize (IH i).
    case_decide; simpl; lia.
Qed.

Lemma dict_len_set_le {V} (d : dict.t V) k v :
  (dict.len (dict.set k v d) <= S (dict.len d))%nat.
Proof.
  unfold dict.len. induction d as [|[k' v'] d IH]; simpl; [lia|].
  destruct (String.eqb k k'); simpl; lia.
Qed.

Lemma counters_ok_park lot v now :
  counters_ok lot -> counters_ok (fst (ParkingLot.park_vehicle lot v now)).
Proof.
  unfold counters_ok, ParkingLot.get_total_vehicles_parked.
  rewrite !get_occupied_slots_length. intros [H1 H2].
  destruct (park_vehicle_cases lot v now) as [[e ->] | (k & v' & n & Hk & ->)];
    [done|].
  simpl. rewrite (occupied_count_place _ _ _ Hk).
  pose proof (dict_len_set_le (ParkingLot.vehicles lot) (Vehicle.vehicle_id v') v').
  lia.
Qed.

Lemma counters_ok_remove lot vehicle_id now :
  counters_ok lot ->
  counters_ok (fst (ParkingLot.remove_vehicle lot vehicle_id now)).
Proof.
  unfold counters_ok, ParkingLot.get_total_vehicles_parked.
  rewrite !get_occupied_slots_length. intros [H1 H2].
  unfold ParkingLot.remove_vehicle.
  destruct (dict.get vehicle_id (ParkingLot.vehicles lot)) as [v|] eqn:Hk;
    [|done].
  pose proof (dict_len_del _ _ _ Hk) as Hlen. simpl.
  destruct (ParkingLot.truthy (Vehicle.slot_number v)); simpl.
  - unfold py_setitem.
    destruct (py_index (ParkingLot.slots lot) _) as [i|]; simpl; [|done].
    pose proof (occupied_count_insert_None (ParkingLot.slots lot) i). lia.
  - lia.
Qed.

Lemma counters_ok_reachable lot : reachable lot -> counters_ok lot.
Proof.
  induction 1 as [capacity | lot v now _ IH | lot k now _ IH | lot _ IH].
  - unfold counters_ok. rewrite get_occupied_slots_length.
    pose proof (I1_init capacity) as HI. unfold I1 in HI.
    unfold ParkingLot.get_total_vehicles_parked. rewrite <- HI.
    unfold dict.len. simpl. lia.
  - by apply counters_ok_park.
  - by apply counters_ok_remove.
  - unfold counters_ok in *. rewrite get_occupied_slots_length in *.
    pose proof (I1_reset lot) as HI. unfold I1 in HI.
    destruct IH as [_ IH].
    unfold ParkingLot.get_total_vehicles_parked. rewrite <- HI.
    unfold dict.len. simpl. lia.
Qed.

(** X3.  On every lot built by the constructor and the methods, also after
    admissions of an identifier that was already parked, the number of
    parked records is at most the number of occupied slots, which is at
    most the count of admissions so far. *)
Theorem counters_ordered (lot : ParkingLot.t) :
  reachable lot ->
  (ParkingLot.get_total_vehicles_parked lot
     <= length (ParkingLot.get_occupied_slots lot))%nat /\
  Z.of_nat (length (ParkingLot.get_occupied_slots lot))
     <= ParkingLot.total_vehicles lot.
Proof. apply counters_ok_reachable. Qed.

Lemma counters_ordered_witness :
  reachable lot_gaps /\
  (ParkingLot.get_total_vehicles_parked lot_gaps
     <= length (ParkingLot.get_occupied_slots lot_gaps))%nat /\
  Z.of_nat (length (ParkingLot.get_occupied_slots lot_gaps))
     <= ParkingLot.total_vehicles lot_gaps.
Proof.
  split; [exact lot_gaps_reachable|].
  exact (counters_ordered lot_gaps lot_gaps_reachable).
Defined.

Lemma park_vehicle_revenue lot v now :
  ParkingLot.revenue (fst (ParkingLot.park_vehicle lot v now)) =
  ParkingLot.revenue lot.
Proof.
  by destruct (park_vehicle_cases lot v now)
    as [[e ->] | (k & v' & n & Hk & ->)].
Qed.

Lemma remove_vehicle_revenue lot vehicle_id now :
  (ParkingLot.revenue lot
   <= ParkingLot.revenue (fst (ParkingLot.remove_vehicle lot vehicle_id now)))%Q.
Proof.
  unfold ParkingLot.remove_vehicle.
  destruct (dict.get vehicle_id (ParkingLot.vehicles lot)) as [v|];
    [|apply Qle_refl].
  pose proof (get_parking_fee_nonneg v now) as Hfee.
  destruct (if ParkingLot.truthy _ then _ else _); simpl; lra.
Qed.

(** X4.  Revenue only grows: it is never negative on a lot built by the
    constructor and the methods, an admission and a reset leave it as it is,
    and a release never lowers it. *)
Theorem revenue_never_decreases (lot : ParkingLot.t) :
  reachable lot ->
  (0 <= ParkingLot.revenue lot)%Q /\
  (forall v now,
     ParkingLot.revenue (fst (ParkingLot.park_vehicle lot v now)) =
     ParkingLot.revenue lot) /\
  (forall vehicle_id now,
     (ParkingLot.revenue lot
      <= ParkingLot.revenue (fst (ParkingLot.remove_vehicle lot vehicle_id now)))%Q) /\
  ParkingLot.revenue (ParkingLot.reset lot) = ParkingLot.revenue lot.
Proof.
  intros Hreach. split.
  - induction Hreach as [capacity | lot v now _ IH | lot k now _ IH | lot _ IH].
    + apply Qle_refl.
    + by rewrite park_vehicle_revenue.
    + eapply Qle_trans; [exact IH | apply remove_vehicle_revenue].
    + exact IH.
  - split; [apply park_vehicle_revenue|].
    split; [apply remove_vehicle_revenue | done].
Qed.

Lemma revenue_never_decreases_witness :
  reachable lot_gaps /\
  (0 <= ParkingLot.revenue lot_gaps)%Q /\
  (ParkingLot.revenue lot_gaps
   <= ParkingLot.revenue (fst (ParkingLot.remove_vehicle lot_gaps "ABC123" (2 * hour)%Z)))%Q.
Proof.
  split; [exact lot_gaps_reachable|].
  pose proof (revenue_never_decreases lot_gaps lot_gaps_reachable)
    as (H0 & _ & Hrem & _).
  split; [exact H0 | apply Hrem].
Defined.

(** X5.  A release that returns adds exactly the returned fee to the
    revenue, and changes neither the capacity nor the admission counter. *)
Theorem remove_vehicle_accrues lot vehicle_id now lot' v fee :
  ParkingLot.remove_vehicle lot vehicle_id now = (lot', Returned (v, fee)) ->
  ParkingLot.revenue lot' = (ParkingLot.revenue lot + fee)%Q /\
  ParkingLot.capacity lot' = ParkingLot.capacity lot /\
  ParkingLot.total_vehicles lot' = ParkingLot.total_vehicles lot /\
  ParkingLot.hourly_rate lot' = ParkingLot.hourly_rate lot.
Proof.
  unfold ParkingLot.remove_vehicle.
  destruct (dict.get vehicle_id (ParkingLot.vehicles lot)) as [w|]; [|done].
  destruct (if ParkingLot.truthy _ then _ else _); [|done].
  by intros [= <- <- <-].
Qed.

Lemma remove_vehicle_accrues_witness :
  exists lot' v fee,
    ParkingLot.remove_vehicle lot_two "XYZ789" (3 * hour) = (lot', Returned (v, fee)) /\
    ParkingLot.revenue lot' = (ParkingLot.revenue lot_two + fee)%Q.
Proof.
  eexists _, _, _. split; [reflexivity|].
  exact (proj1 (remove_vehicle_accrues lot_two "XYZ789" (3 * hour) _ _ _ eq_refl)).
Defined.

(** ** Admission and release *)

Lemma get_slot_status_at lot (i : nat) cell :
  slots_ok lot ->
  ParkingLot.slots lot !! i = Some cell ->
  ParkingLot.get_slot_status lot (Z.of_nat i + 1) = Returned cell.
Proof.
  intros Hok Hi. pose proof (lookup_lt_Some _ _ _ Hi) as Hlt.
  unfold slots_ok in Hok. unfold ParkingLot.get_slot_status.
  replace (1 <=? Z.of_nat i + 1) with true by (symmetry; apply Z.leb_le; lia).
  replace (Z.of_nat i + 1 <=? ParkingLot.capacity lot) with true
    by (symmetry; apply Z.leb_le; lia).
  simpl. unfold py_getitem.
  replace (Z.of_nat i + 1 - 1) with (Z.of_nat i) by lia.
  rewrite py_index_nat by done. by rewrite Hi.
Qed.

(** X6.  On a lot built by the constructor and the methods, an admission
    fails exactly when the lot is full, with [ParkingLotFullError] and the
    lot untouched; otherwise it returns a slot number between 1 and the
    capacity and counts one more admission, leaving capacity and revenue as
    they were.  It raises nothing else. *)
Theorem park_vehicle_outcome lot v now :
  reachable lot ->
  (ParkingLot.is_full lot = true /\
   ParkingLot.park_vehicle lot v now = (lot, Raised ParkingLotFullError)) \/
  (ParkingLot.is_full lot = false /\
   exists n lot',
     ParkingLot.park_vehicle lot v now = (lot', Returned n) /\
     1 <= n <= ParkingLot.capacity lot /\
     ParkingLot.total_vehicles lot' = ParkingLot.total_vehicles lot + 1 /\
     ParkingLot.capacity lot' = ParkingLot.capacity lot /\
     ParkingLot.revenue lot' = ParkingLot.revenue lot).
Proof.
  intros Hreach. pose proof (reachable_slots_ok lot Hreach) as Hok.
  destruct (ParkingLot.is_full lot) eqn:Hfull.
  - left. split; [done|]. by apply park_vehicle_full.
  - right. split; [done|].
    pose proof (proj1 (is_full_false_iff lot) Hfull) as Hfree.
    destruct (park_vehicle_places lot v now Hok Hfree) as (i & Hi & _ & ->).
    pose proof (lookup_lt_Some _ _ _ Hi) as Hlt. unfold slots_ok in Hok.
    eexists _, _. split; [done|]. simpl. split; [lia | done].
Qed.

Lemma park_vehicle_outcome_witness :
  reachable lot_two /\
  ((ParkingLot.is_full lot_two = true /\
    ParkingLot.park_vehicle lot_two sample_suv hour =
      (lot_two, Raised ParkingLotFullError)) \/
   (ParkingLot.is_full lot_two = false /\
    exists n lot',
      ParkingLot.park_vehicle lot_two sample_suv hour = (lot', Returned n) /\
      1 <= n <= ParkingLot.capacity lot_two /\
      ParkingLot.total_vehicles lot' = ParkingLot.total_vehicles lot_two + 1 /\
      ParkingLot.capacity lot' = ParkingLot.capacity lot_two /\
      ParkingLot.revenue lot' = ParkingLot.revenue lot_two)).
Proof.
  split; [exact lot_two_reachable|].
  exact (park_vehicle_outcome lot_two sample_suv hour lot_two_reachable).
Defined.

(** X7.  What an admission stores can be read back: after [park_vehicle]
    has returned slot [n], [get_slot_status n] is the admitted record, the
    index maps its identifier to the same record, and that record is the
    vehicle handed in with its slot number set to [n] and its arrival to the
    clock reading. *)
Theorem park_vehicle_then_lookup lot v now lot' n :
  reachable lot ->
  ParkingLot.park_vehicle lot v now = (lot', Returned n) ->
  let parked := Vehicle.set_parked v n now in
  ParkingLot.get_slot_status lot' n = Returned (Some parked) /\
  dict.get (Vehicle.vehicle_id v) (ParkingLot.vehicles lot') = Some parked /\
  ParkingLot.get_slot_status lot n = Returned None.
Proof.
  intros Hreach Hpark parked.
  pose proof (reachable_slots_ok lot Hreach) as Hok.
  assert (Hok' : slots_ok lot').
  { pose proof (slots_ok_park lot v now Hok) as H. by rewrite Hpark in H. }
  destruct (ParkingLot.is_full lot) eqn:Hfull.
  { rewrite (park_vehicle_full _ _ _ Hfull) in Hpark. done. }
  pose proof (proj1 (is_full_false_iff lot) Hfull) as Hfree.
  destruct (park_vehicle_places lot v now Hok Hfree) as (i & Hi & _ & Heq).
  rewrite Heq in Hpark. injection Hpark as <- <-.
  pose proof (lookup_lt_Some _ _ _ Hi) as Hlt.
  split; [|split].
  - apply get_slot_status_at; [done|]. simpl. by apply list_lookup_insert_eq.
  - simpl. apply dict_get_set_eq.
  - by apply get_slot_status_at.
Qed.

Lemma park_vehicle_then_lookup_witness :
  reachable lot_gaps /\
  exists lot',
    ParkingLot.park_vehicle lot_gaps sample_bike hour = (lot', Returned 2) /\
    ParkingLot.get_slot_status lot' 2 =
      Returned (Some (Vehicle.set_parked sample_bike 2 hour)).
Proof.
  split; [exact lot_gaps_reachable|].
  eexists. split; [reflexivity|].
  exact (proj1 (park_vehicle_then_lookup lot_gaps sample_bike hour _ 2
                  lot_gaps_reachable eq_refl)).
Defined.

(** X8.  A release raises [ValueError] exactly when the identifier is not in
    the index, and then leaves the lot untouched. *)
Theorem remove_vehicle_unknown_iff lot vehicle_id now :
  (snd (ParkingLot.remove_vehicle lot vehicle_id now) = Raised ValueError <->
   dict.contains vehicle_id (ParkingLot.vehicles lot) = false) /\
  (dict.contains vehicle_id (ParkingLot.vehicles lot) = false ->
   fst (ParkingLot.remove_vehicle lot vehicle_id now) = lot).
Proof.
  unfold ParkingLot.remove_vehicle, dict.contains.
  destruct (dict.get vehicle_id (ParkingLot.vehicles lot)) as [v|]; [|done].
  split; [|done].
  destruct (if ParkingLot.truthy _ then _ else _); simpl; split; done.
Qed.

(** X9.  On a lot whose index and slots are in step, releasing a parked
    identifier returns its record, empties the slot that record names,
    drops the identifier from the index, so that a second release of it
    raises [ValueError], and leaves every other index entry alone. *)
Theorem remove_vehicle_frees lot k v now :
  slots_ok lot -> in_sync lot ->
  dict.get k (ParkingLot.vehicles lot) = Some v ->
  exists lot' n,
    ParkingLot.remove_vehicle lot k now =
      (lot', Returned (v, Vehicle.get_parking_fee v now)) /\
    Vehicle.slot_number v = Some n /\
    ParkingLot.get_slot_status lot n = Returned (Some v) /\
    ParkingLot.get_slot_status lot' n = Returned None /\
    dict.get k (ParkingLot.vehicles lot') = None /\
    (forall now', ParkingLot.remove_vehicle lot' k now' = (lot', Raised ValueError)) /\
    (forall k', k' <> k ->
       dict.get k' (ParkingLot.vehicles lot') = dict.get k' (ParkingLot.vehicles lot)).
Proof.
  intros Hok Hsync Hk.
  destruct (remove_vehicle_in_sync lot k v now Hsync Hk) as (i & Hi & Hrem).
  destruct Hsync as (Hnd & Hidx & Hslot).
  destruct (Hslot i v Hi) as [_ Hsn].
  pose proof (lookup_lt_Some _ _ _ Hi) as Hlt.
  eexists _, (Z.of_nat i + 1). split; [exact Hrem|].
  split; [done|]. split; [by apply get_slot_status_at|].
  split.
  { apply get_slot_status_at.
    - unfold slots_ok in *. simpl. by rewrite length_insert.
    - simpl. by apply list_lookup_insert_eq. }
  assert (Hgone : dict.get k (dict.del k (ParkingLot.vehicles lot)) = None)
    by by apply dict_get_del_eq.
  split; [done|]. split.
  - intros now'. by apply remove_vehicle_unknown.
  - intros k' Hne. simpl. by apply dict_get_del_ne.
Qed.

Lemma lot_two_invariants : slots_ok lot_two /\ in_sync lot_two /\ I1 lot_two.
Proof. apply fresh_run_invariants, lot_two_fresh_run. Qed.

Lemma remove_vehicle_frees_witness :
  slots_ok lot_two /\ in_sync lot_two /\
  dict.get "XYZ789" (ParkingLot.vehicles lot_two) =
    Some (Vehicle.set_parked sample_bike 2 0) /\
  exists lot',
    fst (ParkingLot.remove_vehicle lot_two "XYZ789" hour) = lot' /\
    ParkingLot.get_slot_status lot' 2 = Returned None.
Proof.
  destruct lot_two_invariants as (Hok & Hsync & _).
  split; [exact Hok|]. split; [exact Hsync|]. split; [reflexivity|].
  destruct (remove_vehicle_frees lot_two "XYZ789" _ hour Hok Hsync eq_refl)
    as (lot' & n & Hrem & Hn & _ & Hfree & _).
  exists lot'. split; [by rewrite Hrem|].
  injection Hn as <-. exact Hfree.
Defined.

Lemma dict_del_set_fresh {V} (d : dict.t V) k v :
  dict.get k d = None -> dict.del k (dict.set k v d) = d.
Proof.
  induction d as [|[k' v'] d IH]; simpl.
  - by rewrite String.eqb_refl.
  - destruct (String.eqb_spec k k') as [->|Hne]; [done|]. simpl.
    destruct (String.eqb_spec k k'); [done|]. intros H. by rewrite IH.
Qed.

(** X10.  Admission and release undo each other on the slots and the index:
    on a lot whose index and slots are in step, parking a vehicle whose
    identifier is not parked and then releasing that identifier gives back
    the slot array and the index as they were; only the admission counter
    (one more) and the revenue (plus the fee) differ. *)
Theorem park_then_remove_restores lot v now lot1 n exit_time :
  slots_ok lot -> in_sync lot ->
  dict.get (Vehicle.vehicle_id v) (ParkingLot.vehicles lot) = None ->
  ParkingLot.park_vehicle lot v now = (lot1, Returned n) ->
  exists lot2 fee,
    ParkingLot.remove_vehicle lot1 (Vehicle.vehicle_id v) exit_time =
      (lot2, Returned (Vehicle.set_parked v n now, fee)) /\
    ParkingLot.slots lot2 = ParkingLot.slots lot /\
    ParkingLot.vehicles lot2 = ParkingLot.vehicles lot /\
    ParkingLot.capacity lot2 = ParkingLot.capacity lot /\
    ParkingLot.total_vehicles lot2 = ParkingLot.total_vehicles lot + 1 /\
    ParkingLot.revenue lot2 = (ParkingLot.revenue lot + fee)%Q.
Proof.
  intros Hok Hsync Hfresh Hpark.
  destruct (ParkingLot.is_full lot) eqn:Hfull.
  { rewrite (park_vehicle_full _ _ _ Hfull) in Hpark. done. }
  pose proof (proj1 (is_full_false_iff lot) Hfull) as Hfree.
  destruct (park_vehicle_places lot v now Hok Hfree) as (i & Hi & _ & Heq).
  rewrite Heq in Hpark. injection Hpark as <- <-.
  set (parked := Vehicle.set_parked v (Z.of_nat i + 1) now).
  pose proof (lookup_lt_Some _ _ _ Hi) as Hlt.
  unfold ParkingLot.remove_vehicle. simpl.
  rewrite dict_get_set_eq. simpl.
  replace (Z.of_nat i + 1 =? 0) with false by (symmetry; apply Z.eqb_neq; lia).
  simpl. unfold py_setitem.
  replace (Z.of_nat i + 1 - 1) with (Z.of_nat i) by lia.
  rewrite py_index_nat by (by rewrite length_insert).
  eexists _, _. split; [reflexivity|]. simpl.
  split.
  { rewrite list_insert_insert_eq. by apply list_insert_id. }
  split; [by apply dict_del_set_fresh | done].
Qed.

Lemma park_then_remove_restores_witness :
  slots_ok lot_two /\ in_sync lot_two /\
  dict.get "TRK456" (ParkingLot.vehicles lot_two) = None /\
  exists lot1,
    ParkingLot.park_vehicle lot_two sample_truck hour = (lot1, Returned 3) /\
    ParkingLot.slots (fst (ParkingLot.remove_vehicle lot1 "TRK456" (2 * hour))) =
      ParkingLot.slots lot_two.
Proof.
  destruct lot_two_invariants as (Hok & Hsync & _).
  split; [exact Hok|]. split; [exact Hsync|]. split; [reflexivity|].
  eexists. split; [reflexivity|].
  destruct (park_then_remove_restores lot_two sample_truck hour _ 3 (2 * hour)
              Hok Hsync eq_refl eq_refl) as (lot2 & fee & Hrem & Hslots & _).
  change (Vehicle.vehicle_id sample_truck) with "TRK456"%string in Hrem.
  rewrite Hrem. exact Hslots.
Defined.

(** ** The lists of available and occupied slots *)

Section Listing.
Implicit Types (g : nat -> Z) (slots : list (option Vehicle.t)).

Lemma listed_member g slots (b : bool) (n : Z) :
  n ∈ (fst <$> filter (fun p : Z * option Vehicle.t =>
                          ParkingLot.is_occupied (snd p) = b)
                 (imap (fun i slot => (g i, slot)) slots)) <->
  exists (i : nat) cell,
    n = g i /\ slots !! i = Some cell /\ ParkingLot.is_occupied cell = b.
Proof.
  rewrite list_elem_of_fmap. split.
  - intros ([n' cell] & -> & Hin).
    apply list_elem_of_filter in Hin as [Hb Hin].
    apply elem_of_lookup_imap in Hin as (i & cell' & [= -> ->] & Hi).
    by exists i, cell'.
  - intros (i & cell & -> & Hi & Hb).
    exists (g i, cell). split; [done|].
    apply list_elem_of_filter. split; [done|].
    apply elem_of_lookup_imap. by exists i, cell.
Qed.

Lemma listed_lengths g slots :
  (length (filter (fun p : Z * option Vehicle.t =>
                     ParkingLot.is_occupied (snd p) = false)
             (imap (fun i slot => (g i, slot)) slots)) +
   length (filter (fun p : Z * option Vehicle.t =>
                     ParkingLot.is_occupied (snd p) = true)
             (imap (fun i slot => (g i, slot)) slots)) = length slots)%nat.
Proof.
  revert g. induction slots as [|slot slots IH]; intros g; [done|].
  rewrite imap_cons, !filter_cons.
  change (imap ((fun i slot => (g i, slot)) ∘ S) slots)
    with (imap (fun i slot => ((g ∘ S) i, slot)) slots).
  simpl. pose proof (IH (g ∘ S)) as IH'.
  destruct slot as [w|]; simpl in *;
    repeat case_decide; simplify_eq/=; lia.
Qed.

Lemma listed_sorted g slots (b : bool) :
  (forall i j : nat, (i < j)%nat -> g i < g j) ->
  StronglySorted Z.lt
    (fst <$> filter (fun p : Z * option Vehicle.t =>
                       ParkingLot.is_occupied (snd p) = b)
               (imap (fun i slot => (g i, slot)) slots)).
Proof.
  revert g. induction slots as [|slot slots IH]; intros g Hg.
  { constructor. }
  rewrite imap_cons, filter_cons.
  change (imap ((fun i slot => (g i, slot)) ∘ S) slots)
    with (imap (fun i slot => ((g ∘ S) i, slot)) slots).
  simpl.
  assert (Htail : StronglySorted Z.lt
            (fst <$> filter (fun p : Z * option Vehicle.t =>
                               ParkingLot.is_occupied (snd p) = b)
                       (imap (fun i slot => ((g ∘ S) i, slot)) slots))).
  { apply IH. intros i j Hij. simpl. apply Hg. lia. }
  case_decide; [|exact Htail].
  simpl. constructor; [exact Htail|].
  apply Forall_forall. intros n Hn.
  apply (listed_member (g ∘ S)) in Hn as (i & cell & -> & _).
  simpl. apply Hg. lia.
Qed.

Lemma listed_empty_iff g slots (b : bool) :
  forallb (fun slot => negb (Bool.eqb (ParkingLot.is_occupied slot) b)) slots = true <->
  fst <$> filter (fun p : Z * option Vehicle.t =>
                    ParkingLot.is_occupied (snd p) = b)
            (imap (fun i slot => (g i, slot)) slots) = [].
Proof.
  revert g. induction slots as [|slot slots IH]; intros g; [done|].
  rewrite imap_cons, filter_cons.
  change (imap ((fun i slot => (g i, slot)) ∘ S) slots)
    with (imap (fun i slot => ((g ∘ S) i, slot)) slots).
  simpl. specialize (IH (g ∘ S)).
  destruct slot as [w|], b; simpl in *; try case_decide; simplify_eq/=;
    try exact IH; split; done.
Qed.

Lemma listed_head g slots (i : nat) v :
  slots !! i = Some None ->
  (forall j, (j < i)%nat -> exists w, slots !! j = Some (Some w)) ->
  fst <$> filter (fun p : Z * option Vehicle.t =>
                    ParkingLot.is_occupied (snd p) = false)
            (imap (fun i slot => (g i, slot)) slots) =
  g i :: (fst <$> filter (fun p : Z * option Vehicle.t =>
                            ParkingLot.is_occupied (snd p) = false)
                    (imap (fun i slot => (g i, slot)) (<[i := Some v]> slots))).
Proof.
  revert g i. induction slots as [|slot slots IH]; intros g [|i] Hi Hbefore;
    simplify_eq/=.
  - rewrite ?imap_cons, !filter_cons. simpl.
    repeat case_decide; simplify_eq/=; done.
  - destruct (Hbefore O) as [w Hw]; [lia|]. simpl in Hw. injection Hw as ->.
    rewrite ?imap_cons, !filter_cons. simpl.
    apply (IH (g ∘ S) i Hi).
    intros j Hj. apply (Hbefore (S j)). lia.
Qed.
End Listing.

(** X11.  On a lot built by the constructor and the methods,
    [get_available_slots] lists exactly the slot numbers in [[1, capacity]]
    whose status is empty, and [get_occupied_slots] exactly those whose
    status is a parked record; no number is in both lists. *)
Theorem slot_lists_membership (lot : ParkingLot.t) (n : Z) :
  reachable lot ->
  (n ∈ ParkingLot.get_available_slots lot <->
     1 <= n <= ParkingLot.capacity lot /\
     ParkingLot.get_slot_status lot n = Returned None) /\
  (n ∈ ParkingLot.get_occupied_slots lot <->
     exists v, ParkingLot.get_slot_status lot n = Returned (Some v)) /\
  ~ (n ∈ ParkingLot.get_available_slots lot /\
     n ∈ ParkingLot.get_occupied_slots lot).
Proof.
  intros Hreach. pose proof (reachable_slots_ok lot Hreach) as Hok.
  assert (Hin : forall m, 1 <= m <= ParkingLot.capacity lot ->
            exists (i : nat) cell, m = Z.of_nat i + 1 /\
              ParkingLot.slots lot !! i = Some cell).
  { intros m Hm. unfold slots_ok in Hok.
    destruct (ParkingLot.slots lot !! Z.to_nat (m - 1)) as [cell|] eqn:E.
    - exists (Z.to_nat (m - 1)), cell. split; [lia | done].
    - apply lookup_ge_None in E. lia. }
  assert (Hout : forall m v, ParkingLot.get_slot_status lot m = Returned (Some v) ->
            1 <= m <= ParkingLot.capacity lot).
  { intros m v. unfold ParkingLot.get_slot_status.
    destruct (1 <=? m) eqn:E1; [|done].
    destruct (m <=? ParkingLot.capacity lot) eqn:E2; [|done].
    apply Z.leb_le in E1, E2. intros _. lia. }
  assert (Ha : n ∈ ParkingLot.get_available_slots lot <->
     1 <= n <= ParkingLot.capacity lot /\
     ParkingLot.get_slot_status lot n = Returned None).
  { unfold ParkingLot.get_available_slots, ParkingLot.numbered.
    rewrite listed_member. split.
    - intros (i & cell & -> & Hi & Hb). destruct cell; [done|].
      pose proof (lookup_lt_Some _ _ _ Hi). unfold slots_ok in Hok.
      split; [lia | by apply get_slot_status_at].
    - intros [Hn Hst]. destruct (Hin n Hn) as (i & cell & -> & Hi).
      rewrite (get_slot_status_at lot i cell Hok Hi) in Hst.
      injection Hst as ->. by exists i, None. }
  assert (Ho : n ∈ ParkingLot.get_occupied_slots lot <->
     exists v, ParkingLot.get_slot_status lot n = Returned (Some v)).
  { unfold ParkingLot.get_occupied_slots, ParkingLot.numbered.
    rewrite listed_member. split.
    - intros (i & cell & -> & Hi & Hb). destruct cell as [v|]; [|done].
      exists v. by apply get_slot_status_at.
    - intros [v Hst]. destruct (Hin n (Hout n v Hst)) as (i & cell & -> & Hi).
      rewrite (get_slot_status_at lot i cell Hok Hi) in Hst.
      injection Hst as ->. by exists i, (Some v). }
  split; [exact Ha|]. split; [exact Ho|].
  intros [H1 H2]. apply Ha in H1 as [_ H1]. apply Ho in H2 as [v H2].
  congruence.
Qed.

Lemma slot_lists_membership_witness :
  reachable lot_gaps /\
  2 ∈ ParkingLot.get_available_slots lot_gaps.
Proof.
  split; [exact lot_gaps_reachable|].
  apply (proj1 (slot_lists_membership lot_gaps 2 lot_gaps_reachable)).
  split; [simpl; lia | reflexivity].
Defined.

(** X12.  Both lists are strictly ascending, whatever the lot, and their
    lengths add up to the number of slots, which on a lot built by the
    constructor and the methods is the capacity (zero for a capacity below
    one). *)
Theorem slot_lists_partition (lot : ParkingLot.t) :
  reachable lot ->
  StronglySorted Z.lt (ParkingLot.get_available_slots lot) /\
  StronglySorted Z.lt (ParkingLot.get_occupied_slots lot) /\
  Z.of_nat (length (ParkingLot.get_available_slots lot) +
            length (ParkingLot.get_occupied_slots lot)) =
    Z.max 0 (ParkingLot.capacity lot).
Proof.
  intros Hreach. pose proof (reachable_slots_ok lot Hreach) as Hok.
  unfold ParkingLot.get_available_slots, ParkingLot.get_occupied_slots,
    ParkingLot.numbered.
  split; [apply listed_sorted; intros; lia|].
  split; [apply listed_sorted; intros; lia|].
  rewrite !length_fmap, listed_lengths. unfold slots_ok in Hok. lia.
Qed.

Lemma slot_lists_partition_witness :
  reachable lot_gaps /\
  Z.of_nat (length (ParkingLot.get_available_slots lot_gaps) +
            length (ParkingLot.get_occupied_slots lot_gaps)) = 4.
Proof.
  split; [exact lot_gaps_reachable|].
  exact (proj2 (proj2 (slot_lists_partition lot_gaps lot_gaps_reachable))).
Defined.

(** X13.  [is_full] holds exactly when no slot is available and [is_empty]
    exactly when no slot is occupied; a lot without slots is both. *)
Theorem full_empty_iff_lists (lot : ParkingLot.t) :
  (ParkingLot.is_full lot = true <-> ParkingLot.get_available_slots lot = []) /\
  (ParkingLot.is_empty lot = true <-> ParkingLot.get_occupied_slots lot = []) /\
  (ParkingLot.slots lot = [] <->
   ParkingLot.is_full lot = true /\ ParkingLot.is_empty lot = true).
Proof.
  unfold ParkingLot.is_full, ParkingLot.is_empty,
    ParkingLot.get_available_slots, ParkingLot.get_occupied_slots,
    ParkingLot.numbered.
  split; [|split].
  - rewrite <- (listed_empty_iff _ _ false).
    assert (E : forall l : list (option Vehicle.t),
              forallb ParkingLot.is_occupied l =
              forallb (fun slot => negb (Bool.eqb (ParkingLot.is_occupied slot) false)) l).
    { induction l as [|[w|] l IH]; simpl; by rewrite ?IH. }
    by rewrite E.
  - rewrite <- (listed_empty_iff _ _ true).
    assert (E : forall l : list (option Vehicle.t),
              forallb (fun slot => negb (ParkingLot.is_occupied slot)) l =
              forallb (fun slot => negb (Bool.eqb (ParkingLot.is_occupied slot) true)) l).
    { induction l as [|[w|] l IH]; simpl; by rewrite ?IH. }
    by rewrite E.
  - destruct (ParkingLot.slots lot) as [|[w|] l]; simpl; split;
      try done; intros [? ?]; done.
Qed.

(** X14.  An admission takes the first entry of [get_available_slots]: on a
    lot built by the constructor and the methods that is not full,
    [park_vehicle] returns the head of the list and the list of the lot it
    leaves is the tail. *)
Theorem park_vehicle_takes_first_available lot v now :
  reachable lot ->
  ParkingLot.is_full lot = false ->
  exists n lot',
    ParkingLot.park_vehicle lot v now = (lot', Returned n) /\
    ParkingLot.get_available_slots lot = n :: ParkingLot.get_available_slots lot' /\
    n ∈ ParkingLot.get_occupied_slots lot'.
Proof.
  intros Hreach Hfull. pose proof (reachable_slots_ok lot Hreach) as Hok.
  pose proof (proj1 (is_full_false_iff lot) Hfull) as Hfree.
  destruct (park_vehicle_places lot v now Hok Hfree) as (i & Hi & Hbefore & ->).
  eexists _, _. split; [done|].
  pose proof (lookup_lt_Some _ _ _ Hi) as Hlt.
  split.
  - unfold ParkingLot.get_available_slots, ParkingLot.numbered. simpl.
    by apply (listed_head (fun i : nat => Z.of_nat i + 1)).
  - unfold ParkingLot.get_occupied_slots, ParkingLot.numbered. simpl.
    apply listed_member. eexists i, _. split; [done|].
    split; [by apply list_lookup_insert_eq | done].
Qed.

Lemma park_vehicle_takes_first_available_witness :
  reachable lot_gaps /\ ParkingLot.is_full lot_gaps = false /\
  ParkingLot.get_available_slots lot_gaps = [2; 4] /\
  exists n lot',
    ParkingLot.park_vehicle lot_gaps sample_bike hour = (lot', Returned n) /\
    ParkingLot.get_available_slots lot_gaps =
      n :: ParkingLot.get_available_slots lot' /\
    n ∈ ParkingLot.get_occupied_slots lot'.
Proof.
  split; [exact lot_gaps_reachable|]. split; [reflexivity|].
  split; [reflexivity|].
  exact (park_vehicle_takes_first_available lot_gaps sample_bike hour
           lot_gaps_reachable eq_refl).
Defined.

(** ** Occupancy rate and status line *)

(** X15.  On a lot built by the constructor and the methods,
    [get_occupancy_rate] divides by zero exactly for capacity 0; for a
    capacity of at least one it lies between 0 and 100, is 100 exactly when
    the lot is full and 0 exactly when it is empty. *)
Theorem get_occupancy_rate_range (lot : ParkingLot.t) :
  reachable lot ->
  (ParkingLot.get_occupancy_rate lot = ParkingLot.ZeroDivisionError <->
   ParkingLot.capacity lot = 0) /\
  (1 <= ParkingLot.capacity lot ->
   exists r,
     ParkingLot.get_occupancy_rate lot = ParkingLot.Quotient r /\
     (0 <= r)%Q /\ (r <= 100)%Q /\
     ((r == 100)%Q <-> ParkingLot.is_full lot = true) /\
     ((r == 0)%Q <-> ParkingLot.is_empty lot = true)).
Proof.
  intros Hreach.
  destruct (slot_lists_partition lot Hreach) as (_ & _ & Hsum).
  destruct (full_empty_iff_lists lot) as (Hfull & Hempty & _).
  unfold ParkingLot.get_occupancy_rate.
  split.
  { destruct (ParkingLot.capacity lot =? 0) eqn:E.
    - apply Z.eqb_eq in E. done.
    - apply Z.eqb_neq in E. split; [done | intros; lia]. }
  intros Hcap.
  replace (ParkingLot.capacity lot =? 0) with false
    by (symmetry; apply Z.eqb_neq; lia).
  eexists. split; [reflexivity|].
  set (o := length (ParkingLot.get_occupied_slots lot)) in *.
  set (a := length (ParkingLot.get_available_slots lot)) in *.
  assert (Hfull' : ParkingLot.is_full lot = true <-> a = O).
  { rewrite Hfull. subst a.
    destruct (ParkingLot.get_available_slots lot); simpl; split; done. }
  assert (Hempty' : ParkingLot.is_empty lot = true <-> o = O).
  { rewrite Hempty. subst o.
    destruct (ParkingLot.get_occupied_slots lot); simpl; split; done. }
  rewrite Hfull', Hempty'.
  destruct (ParkingLot.capacity lot) as [|p|p]; [lia | | lia].
  clearbody o a. clear Hfull Hempty Hfull' Hempty'.
  unfold Qle, Qeq, Qdiv, Qmult, Qinv, inject_Z. simpl.
  rewrite Pos.mul_1_l, Pos.mul_1_r. lia.
Qed.

Lemma get_occupancy_rate_range_witness :
  reachable lot_gaps /\
  exists r,
    ParkingLot.get_occupancy_rate lot_gaps = ParkingLot.Quotient r /\
    (0 <= r)%Q /\ (r <= 100)%Q.
Proof.
  split; [exact lot_gaps_reachable|].
  destruct (get_occupancy_rate_range lot_gaps lot_gaps_reachable) as [_ H].
  destruct H as (r & Hr & H0 & H100 & _); [vm_compute; discriminate|].
  exists r. split; [exact Hr|]. split; [exact H0 | exact H100].
Defined.

Lemma fresh_run_reachable lot : fresh_run lot -> reachable lot.
Proof. induction 1; by constructor. Qed.

(** X16.  Along runs in which no identifier is parked twice the status line
    is right: "FULL" means no slot is available, "EMPTY" means nothing is
    parked in a lot that has slots, and otherwise the line shows the number
    of occupied slots, strictly between 0 and the capacity. *)
Theorem update_real_time_info_status (lot : ParkingLot.t) :
  fresh_run lot ->
  match AutomatedParkingLotSystem.update_real_time_info lot with
  | AutomatedParkingLotSystem.FULL => ParkingLot.get_available_slots lot = []
  | AutomatedParkingLotSystem.EMPTY =>
      ParkingLot.get_occupied_slots lot = [] /\
      ParkingLot.vehicles lot = dict.empty /\
      1 <= ParkingLot.capacity lot
  | AutomatedParkingLotSystem.Occupancy occupied capacity =>
      capacity = ParkingLot.capacity lot /\
      occupied = length (ParkingLot.get_occupied_slots lot) /\
      0 < Z.of_nat occupied < capacity
  end.
Proof.
  intros Hrun.
  destruct (fresh_run_invariants lot Hrun) as (Hok & Hsync & HI1).
  destruct (slot_lists_partition lot (fresh_run_reachable lot Hrun))
    as (_ & _ & Hsum).
  destruct (full_empty_iff_lists lot) as (Hfull & Hempty & _).
  unfold AutomatedParkingLotSystem.update_real_time_info.
  destruct (ParkingLot.is_full lot) eqn:Efull; [by apply Hfull|].
  assert (Ha : ParkingLot.get_available_slots lot <> []).
  { intros Hnil. apply Hfull in Hnil. congruence. }
  destruct (ParkingLot.is_empty lot) eqn:Eempty.
  - pose proof (proj1 Hempty eq_refl) as Ho.
    split; [done|]. split; [by apply in_sync_empty_no_index|].
    rewrite Ho in Hsum.
    destruct (ParkingLot.get_available_slots lot); [done|]. simpl in Hsum. lia.
  - assert (Ho : ParkingLot.get_occupied_slots lot <> []).
    { intros Hnil. apply Hempty in Hnil. congruence. }
    split; [done|].
    unfold I1 in HI1. rewrite <- get_occupied_slots_length in HI1.
    unfold ParkingLot.get_total_vehicles_parked. split; [done|].
    rewrite HI1.
    destruct (ParkingLot.get_available_slots lot); [done|].
    destruct (ParkingLot.get_occupied_slots lot); [done|].
    simpl in Hsum |- *. lia.
Qed.

Lemma update_real_time_info_status_witness :
  fresh_run lot_two /\
  AutomatedParkingLotSystem.update_real_time_info lot_two =
    AutomatedParkingLotSystem.Occupancy 2 5 /\
  length (ParkingLot.get_occupied_slots lot_two) = 2%nat.
Proof.
  split; [exact lot_two_fresh_run|]. split; [reflexivity|].
  pose proof (update_real_time_info_status lot_two lot_two_fresh_run) as H.
  change (AutomatedParkingLotSystem.update_real_time_info lot_two)
    with (AutomatedParkingLotSystem.Occupancy 2 5) in H.
  destruct H as (_ & H & _). symmetry. exact H.
Defined.

(** ** The handlers *)

Lemma make_vehicle_id ty vehicle_id owner color :
  Vehicle.vehicle_id (make_vehicle ty vehicle_id owner color) = vehicle_id.
Proof. by destruct ty. Qed.

Lemma park_status_fst r : fst (AutomatedParkingLotSystem.park_status r) = fst r.
Proof. by destruct r as [lot [n|[]]]. Qed.

Lemma lot_invariants_park_fresh lot v now :
  lot_invariants lot ->
  dict.get (Vehicle.vehicle_id v) (ParkingLot.vehicles lot) = None ->
  lot_invariants (fst (ParkingLot.park_vehicle lot v now)).
Proof.
  intros (Hok & Hsync & HI1) Hfresh.
  split; [by apply slots_ok_park|]. by apply park_vehicle_fresh_preserves.
Qed.

Lemma lot_invariants_remove lot k now :
  lot_invariants lot ->
  lot_invariants (fst (ParkingLot.remove_vehicle lot k now)).
Proof.
  intros (Hok & Hsync & HI1).
  split; [by apply slots_ok_remove|].
  destruct (dict.get k (ParkingLot.vehicles lot)) as [v|] eqn:Hk.
  - split; [by apply (remove_vehicle_preserves_sync lot k v)|].
    by apply (remove_vehicle_preserves_I1 lot k v).
  - by rewrite (remove_vehicle_unknown _ _ _ Hk).
Qed.

(** X17.  The entry-form handlers keep the lot consistent whatever is typed:
    from a lot whose slots and index are in step and satisfy I1, the park
    handler (also for an empty or a parked identifier, or a full lot), the
    remove handler and the reset handler all lead to such a lot again. *)
Theorem handlers_keep_invariants lot vehicle_id owner_name ty color now response :
  lot_invariants lot ->
  lot_invariants
    (fst (AutomatedParkingLotSystem.park_vehicle lot vehicle_id owner_name ty
            color now)) /\
  lot_invariants
    (fst (AutomatedParkingLotSystem.remove_vehicle lot vehicle_id now)) /\
  lot_invariants (AutomatedParkingLotSystem.reset_parking_lot response lot).
Proof.
  intros Hinv. split; [|split].
  - unfold AutomatedParkingLotSystem.park_vehicle.
    destruct (String.eqb vehicle_id ""); [done|].
    unfold dict.contains.
    destruct (dict.get vehicle_id (ParkingLot.vehicles lot)) eqn:Hk; [done|].
    rewrite park_status_fst. apply lot_invariants_park_fresh; [done|].
    by rewrite make_vehicle_id.
  - unfold AutomatedParkingLotSystem.remove_vehicle.
    destruct (String.eqb vehicle_id ""); [done|].
    pose proof (lot_invariants_remove lot vehicle_id now Hinv) as H.
    destruct (ParkingLot.remove_vehicle lot vehicle_id now)
      as [lot' [[v fee]|[]]]; exact H.
  - unfold AutomatedParkingLotSystem.reset_parking_lot.
    destruct response; [|done].
    split; [apply slots_ok_reset|]. split; [apply in_sync_reset | apply I1_reset].
Qed.

Lemma lot_two_lot_invariants : lot_invariants lot_two.
Proof. exact lot_two_invariants. Qed.

Lemma handlers_keep_invariants_witness :
  lot_invariants lot_two /\
  lot_invariants
    (fst (AutomatedParkingLotSystem.park_vehicle lot_two "ABC123" "" VehicleType.CAR
            "#1abc9c" hour)).
Proof.
  split; [exact lot_two_lot_invariants|].
  exact (proj1 (handlers_keep_invariants lot_two "ABC123" "" VehicleType.CAR
                  "#1abc9c" hour true lot_two_lot_invariants)).
Defined.

Lemma get_slot_status_inv lot n v :
  slots_ok lot ->
  ParkingLot.get_slot_status lot n = Returned (Some v) ->
  exists i : nat, n = Z.of_nat i + 1 /\ ParkingLot.slots lot !! i = Some (Some v).
Proof.
  intros Hok. unfold ParkingLot.get_slot_status, slots_ok in *.
  destruct (1 <=? n) eqn:E1; [|done].
  destruct (n <=? ParkingLot.capacity lot) eqn:E2; [|done].
  apply Z.leb_le in E1, E2. simpl. unfold py_getitem.
  rewrite py_index_in_range by lia.
  destruct (ParkingLot.slots lot !! Z.to_nat (n - 1)) as [cell|] eqn:E; [|done].
  intros [= ->]. exists (Z.to_nat (n - 1)). split; [lia | done].
Qed.

(** X18.  Selecting a slot and removing what it shows frees that slot: on a
    lot whose slots and index are in step, [on_slot_selected] for an
    occupied slot puts the identifier of the record parked there into the
    entry, and releasing that identifier returns that very record and
    leaves the selected slot empty. *)
Theorem select_then_remove_frees_slot lot n v entry now :
  lot_invariants lot ->
  ParkingLot.get_slot_status lot n = Returned (Some v) ->
  AutomatedParkingLotSystem.on_slot_selected lot (Some n) entry =
    Returned (Vehicle.vehicle_id v) /\
  exists lot',
    ParkingLot.remove_vehicle lot (Vehicle.vehicle_id v) now =
      (lot', Returned (v, Vehicle.get_parking_fee v now)) /\
    ParkingLot.get_slot_status lot' n = Returned None.
Proof.
  intros (Hok & Hsync & _) Hst.
  split; [unfold AutomatedParkingLotSystem.on_slot_selected; by rewrite Hst|].
  destruct (get_slot_status_inv lot n v Hok Hst) as (i & -> & Hi).
  pose proof Hsync as (_ & _ & Hslot).
  destruct (Hslot i v Hi) as [Hk Hsn].
  destruct (remove_vehicle_in_sync lot _ v now Hsync Hk) as (i' & Hi' & Hrem).
  destruct (Hslot i' v Hi') as [_ Hsn'].
  assert (i' = i) as -> by (rewrite Hsn in Hsn'; injection Hsn' as ?; lia).
  eexists. split; [exact Hrem|].
  pose proof (lookup_lt_Some _ _ _ Hi) as Hlt.
  apply get_slot_status_at.
  - unfold slots_ok in *. simpl. by rewrite length_insert.
  - simpl. by apply list_lookup_insert_eq.
Qed.

Lemma select_then_remove_frees_slot_witness :
  lot_invariants lot_two /\
  ParkingLot.get_slot_status lot_two 1 =
    Returned (Some (Vehicle.set_parked sample_car 1 0)) /\
  AutomatedParkingLotSystem.on_slot_selected lot_two (Some 1) "" = Returned "ABC123".
Proof.
  split; [exact lot_two_lot_invariants|]. split; [reflexivity|].
  exact (proj1 (select_then_remove_frees_slot lot_two 1 _ "" hour
                  lot_two_lot_invariants eq_refl)).
Defined.

(** ** The demonstration vehicles *)

Lemma shape_lookup (a b i : nat) :
  (replicate a true ++ replicate b false) !! i =
    if decide (i < a)%nat then Some true
    else if decide (i < a + b)%nat then Some false else None.
Proof.
  case_decide as Ha.
  - rewrite lookup_app_l by (by rewrite length_replicate).
    by apply lookup_replicate_2.
  - rewrite lookup_app_r by (rewrite length_replicate; lia).
    rewrite length_replicate. case_decide as Hb.
    + apply lookup_replicate_2. lia.
    + apply lookup_ge_None. rewrite length_replicate. lia.
Qed.

Lemma shape_full lot (a : nat) :
  ParkingLot.is_occupied <$> ParkingLot.slots lot = replicate a true ->
  ParkingLot.is_full lot = true.
Proof.
  intros Hshape. destruct (ParkingLot.is_full lot) eqn:Hfull; [done|].
  apply is_full_false_iff in Hfull as [i Hi].
  assert (H : (ParkingLot.is_occupied <$> ParkingLot.slots lot) !! i = Some false)
    by (by rewrite list_lookup_fmap, Hi).
  rewrite Hshape in H. apply lookup_replicate in H as [? _]. done.
Qed.

Lemma shape_place lot (a b i : nat) v :
  ParkingLot.is_occupied <$> ParkingLot.slots lot =
    replicate a true ++ replicate (S b) false ->
  ParkingLot.slots lot !! i = Some None ->
  (forall j, (j < i)%nat -> exists w, ParkingLot.slots lot !! j = Some (Some w)) ->
  i = a /\
  ParkingLot.is_occupied <$> <[i := Some v]> (ParkingLot.slots lot) =
    replicate (a + 1) true ++ replicate b false.
Proof.
  intros Hshape Hi Hbefore.
  assert (Hl : forall j, (ParkingLot.is_occupied <$> ParkingLot.slots lot) !! j =
                 ParkingLot.is_occupied <$> (ParkingLot.slots lot !! j))
    by (intros j; apply list_lookup_fmap).
  rewrite Hshape in Hl.
  assert (i = a) as ->.
  { destruct (Nat.lt_trichotomy i a) as [Hlt | [-> | Hgt]]; [|done|].
    - specialize (Hl i). rewrite shape_lookup, Hi in Hl.
      by rewrite decide_True in Hl by done.
    - destruct (Hbefore a Hgt) as [w Hw].
      specialize (Hl a). rewrite shape_lookup, Hw in Hl.
      rewrite decide_False, decide_True in Hl by lia. done. }
  split; [done|].
  rewrite list_fmap_insert, Hshape. simpl.
  rewrite insert_app_r_alt by (by rewrite length_replicate).
  rewrite length_replicate, Nat.sub_diag. simpl.
  replace (a + 1)%nat with (S a) by lia.
  rewrite replicate_S_end, <- app_assoc. done.
Qed.

Lemma initialize_demo_vehicles_for_spec demo :
  forall lot colors clock (a b : nat),
    lot_invariants lot ->
    ParkingLot.is_occupied <$> ParkingLot.slots lot =
      replicate a true ++ replicate b false ->
    NoDup (demo_ids demo) ->
    (forall k, k ∈ demo_ids demo -> dict.get k (ParkingLot.vehicles lot) = None) ->
    let r := AutomatedParkingLotSystem.initialize_demo_vehicles_for
               lot demo colors clock in
    let m := Nat.min (length demo) b in
    snd r = Returned tt /\
    lot_invariants (fst r) /\
    ParkingLot.is_occupied <$> ParkingLot.slots (fst r) =
      replicate (a + m) true ++ replicate (b - m) false /\
    ParkingLot.total_vehicles (fst r) = ParkingLot.total_vehicles lot + Z.of_nat m /\
    dict.keys (ParkingLot.vehicles (fst r)) =
      dict.keys (ParkingLot.vehicles lot) ++ take b (demo_ids demo) /\
    ParkingLot.capacity (fst r) = ParkingLot.capacity lot /\
    ParkingLot.revenue (fst r) = ParkingLot.revenue lot.
Proof.
  induction demo as [|[[vehicle_id ty] owner] demo IH];
    intros lot colors clock a b Hinv Hshape Hnd Hfresh.
  { simpl. rewrite Nat.add_0_r, Nat.sub_0_r, Z.add_0_r, take_nil, app_nil_r.
    done. }
  simpl. destruct b as [|b].
  - rewrite app_nil_r in Hshape.
    rewrite (park_vehicle_full _ _ _ (shape_full lot a Hshape)). simpl.
    rewrite Nat.add_0_r, Z.add_0_r, !app_nil_r. done.
  - set (v := make_vehicle ty vehicle_id owner (colors O)).
    pose proof Hinv as (Hok & Hsync & HI1).
    assert (Hfree : exists i : nat, ParkingLot.slots lot !! i = Some None).
    { apply is_full_false_iff.
      destruct (ParkingLot.is_full lot) eqn:Hfull; [|done].
      assert (H : (ParkingLot.is_occupied <$> ParkingLot.slots lot) !! a = Some false).
      { rewrite Hshape, shape_lookup.
        rewrite decide_False, decide_True by lia. done. }
      rewrite list_lookup_fmap in H.
      destruct (ParkingLot.slots lot !! a) as [[w|]|] eqn:Ha; simplify_eq/=.
      unfold ParkingLot.is_full in Hfull. rewrite forallb_forall in Hfull.
      apply list_elem_of_lookup_2, list_elem_of_In, Hfull in Ha. done. }
    destruct (park_vehicle_places lot v (clock O) Hok Hfree)
      as (i & Hi & Hbefore & Heq).
    destruct (shape_place lot a b i
                (Vehicle.set_parked v (Z.of_nat i + 1) (clock O))
                Hshape Hi Hbefore) as [-> Hshape'].
    assert (Hid : Vehicle.vehicle_id v = vehicle_id) by apply make_vehicle_id.
    assert (Hget : dict.get vehicle_id (ParkingLot.vehicles lot) = None)
      by (apply Hfresh; left).
    pose proof (lot_invariants_park_fresh lot v (clock O) Hinv) as Hinv'.
    rewrite Hid, Heq in Hinv'. specialize (Hinv' Hget). simpl in Hinv'.
    rewrite Heq.
    apply NoDup_cons in Hnd as [Hnotin Hnd].
    destruct (IH (ParkingLot.place_at lot a
                    (Vehicle.set_parked v (Z.of_nat a + 1) (clock O)))
                (fun k => colors (S k)) (fun k => clock (S k)) (a + 1)%nat b
                Hinv' Hshape' Hnd)
      as (Hr & Hinv2 & Hshape2 & Htot & Hkeys & Hcap & Hrev).
    { intros k Hk. simpl. rewrite Hid.
      rewrite dict_get_set_ne; [apply Hfresh; by right|].
      intros ->. done. }
    split; [exact Hr|]. split; [exact Hinv2|].
    split; [rewrite Hshape2; f_equal; f_equal; lia|].
    split; [rewrite Htot; simpl; lia|].
    split; [|split; [exact Hcap | exact Hrev]].
    rewrite Hkeys. simpl. rewrite Hid, (dict_set_fresh _ _ _ Hget).
    unfold dict.keys. rewrite fmap_app, <- app_assoc. done.
Qed.

Lemma get_slot_status_returns lot n :
  slots_ok lot -> exists cell, ParkingLot.get_slot_status lot n = Returned cell.
Proof.
  intros Hok. unfold ParkingLot.get_slot_status, slots_ok in *.
  destruct (1 <=? n) eqn:E1; [|by eexists].
  destruct (n <=? ParkingLot.capacity lot) eqn:E2; [|by eexists].
  apply Z.leb_le in E1, E2. simpl. unfold py_getitem.
  rewrite py_index_in_range by lia.
  destruct (ParkingLot.slots lot !! Z.to_nat (n - 1)) as [cell|] eqn:E;
    [by eexists|].
  apply lookup_ge_None in E. lia.
Qed.

Lemma slot_statuses_returns lot slot_nums :
  slots_ok lot ->
  exists drawn,
    AutomatedParkingLotSystem.slot_statuses lot slot_nums = Returned drawn.
Proof.
  intros Hok. induction slot_nums as [|n slot_nums [drawn IH]]; simpl;
    [by eexists|].
  destruct (get_slot_status_returns lot n Hok) as [cell ->].
  rewrite IH. by eexists.
Qed.

Lemma occupied_count_fmap slots :
  occupied_count slots =
  length (filter (fun b : bool => b = true) (ParkingLot.is_occupied <$> slots)).
Proof.
  unfold occupied_count. induction slots as [|slot slots IH]; [done|].
  rewrite fmap_cons, !filter_cons.
  destruct slot as [w|]; simpl; repeat case_decide; simplify_eq/=;
    by rewrite ?IH.
Qed.

Lemma shape_counts lot (a b : nat) :
  ParkingLot.is_occupied <$> ParkingLot.slots lot =
    replicate a true ++ replicate b false ->
  length (ParkingLot.get_occupied_slots lot) = a /\
  length (ParkingLot.get_available_slots lot) = b.
Proof.
  intros Hshape.
  assert (Ho : length (ParkingLot.get_occupied_slots lot) = a).
  { rewrite get_occupied_slots_length, occupied_count_fmap, Hshape, filter_app,
      length_app.
    assert (Ht : forall n, length (filter (fun b : bool => b = true)
                                     (replicate n true)) = n).
    { induction n as [|n IH]; [done|].
      change (replicate (S n) true) with (true :: replicate n true).
      rewrite filter_cons.
      case_decide; [simpl; by rewrite IH | done]. }
    assert (Hf : forall n, length (filter (fun b : bool => b = true)
                                     (replicate n false)) = O).
    { induction n as [|n IH]; [done|].
      change (replicate (S n) false) with (false :: replicate n false).
      rewrite filter_cons.
      case_decide; [done | exact IH]. }
    rewrite Ht, Hf. lia. }
  split; [exact Ho|].
  pose proof (listed_lengths (fun i : nat => Z.of_nat i + 1) (ParkingLot.slots lot))
    as Hsum.
  assert (Hlen : length (ParkingLot.slots lot) = (a + b)%nat).
  { rewrite <- (length_fmap ParkingLot.is_occupied), Hshape, length_app,
      !length_replicate. done. }
  unfold ParkingLot.get_available_slots, ParkingLot.get_occupied_slots,
    ParkingLot.numbered in *.
  rewrite length_fmap in *. lia.
Qed.

(** X19.  [initialize_demo_vehicles] on a new lot of any capacity parks the
    demonstration vehicles in list order into slots 1, 2, ... until the list
    or the lot is exhausted; a lot that is too small ends the loop, no
    [ParkingLotFullError] escapes.  The first [min(4, capacity)] slots are
    occupied, the others free, the index holds those identifiers in order,
    the admission counter is their number, and slots and index are in step.
    The [update_display] that closes the method raises
    [ZeroDivisionError] on a lot of capacity 0; for every other capacity it
    shows the counts of free and occupied slots, the occupancy rate, no
    revenue and the admissions. *)
Theorem initialize_demo_vehicles_new_lot (capacity : Z)
    (colors : nat -> string) (clock : nat -> datetime) :
  let r := AutomatedParkingLotSystem.initialize_demo_vehicles
             (ParkingLot.init capacity) colors clock in
  let c := Z.to_nat capacity in
  let m := Nat.min 4 c in
  lot_invariants (fst r) /\
  ParkingLot.is_occupied <$> ParkingLot.slots (fst r) =
    replicate m true ++ replicate (c - m) false /\
  ParkingLot.total_vehicles (fst r) = Z.of_nat m /\
  dict.keys (ParkingLot.vehicles (fst r)) =
    take c ["ABC123"; "XYZ789"; "TRK456"; "SUV321"]%string /\
  (capacity = 0 ->
   snd r = AutomatedParkingLotSystem.RaisedZeroDivisionError) /\
  (capacity <> 0 ->
   snd r = AutomatedParkingLotSystem.Shown (c - m) m
             ((inject_Z (Z.of_nat m) / inject_Z capacity) * 100)%Q 0%Q
             (Z.of_nat m)).
Proof.
  intros r c m.
  assert (Hinv : lot_invariants (ParkingLot.init capacity)).
  { split; [apply slots_ok_init|]. split; [apply in_sync_init | apply I1_init]. }
  assert (Hshape : ParkingLot.is_occupied <$> ParkingLot.slots (ParkingLot.init capacity) =
                   replicate 0 true ++ replicate c false).
  { simpl. by rewrite fmap_replicate. }
  assert (Hnd : NoDup (demo_ids AutomatedParkingLotSystem.demo_vehicles)).
  { apply (bool_decide_unpack _). by vm_compute. }
  destruct (initialize_demo_vehicles_for_spec
              AutomatedParkingLotSystem.demo_vehicles
              (ParkingLot.init capacity) colors clock 0%nat c Hinv Hshape Hnd)
    as (Hr & Hinv' & Hshape' & Htot & Hkeys & Hcap & Hrev); [done|].
  subst r. unfold AutomatedParkingLotSystem.initialize_demo_vehicles.
  destruct (AutomatedParkingLotSystem.initialize_demo_vehicles_for
              (ParkingLot.init capacity) AutomatedParkingLotSystem.demo_vehicles
              colors clock) as [lot res].
  simpl in *. subst res. simpl.
  split; [exact Hinv'|]. split; [exact Hshape'|].
  split; [exact Htot|]. split; [exact Hkeys|].
  destruct (shape_counts lot _ _ Hshape') as [Ho Ha].
  destruct Hinv' as (Hok & _ & _).
  unfold AutomatedParkingLotSystem.update_display,
    AutomatedParkingLotSystem.draw_parking_lot.
  destruct (slot_statuses_returns lot AutomatedParkingLotSystem.drawn_slots Hok)
    as [drawn ->].
  unfold ParkingLot.get_occupancy_rate. rewrite Hcap, Ho, Ha, Hrev, Htot.
  simpl. split.
  - intros ->. done.
  - intros Hne.
    replace (capacity =? 0) with false by (symmetry; by apply Z.eqb_neq).
    done.
Qed.

Lemma initialize_demo_vehicles_new_lot_witness :
  snd (AutomatedParkingLotSystem.initialize_demo_vehicles (ParkingLot.init 0)
         (fun _ => "#3498db"%string) (fun _ => 0)) =
    AutomatedParkingLotSystem.RaisedZeroDivisionError /\
  12 <> 0 /\
  snd (AutomatedParkingLotSystem.initialize_demo_vehicles (ParkingLot.init 12)
         (fun _ => "#3498db"%string) (fun _ => 0)) =
    AutomatedParkingLotSystem.Shown 8 4
      ((inject_Z 4 / inject_Z 12) * 100)%Q 0%Q 4.
Proof.
  assert (H12 : 12 <> 0) by discriminate.
  split; [|split; [exact H12|]].
  - exact (proj1 (proj2 (proj2 (proj2 (proj2
      (initialize_demo_vehicles_new_lot 0 (fun _ => "#3498db"%string)
         (fun _ => 0)))))) eq_refl).
  - exact (proj2 (proj2 (proj2 (proj2 (proj2
      (initialize_demo_vehicles_new_lot 12 (fun _ => "#3498db"%string)
         (fun _ => 0)))))) H12).
Defined.

(** ** The grid of the canvas *)

(** X20.  The highlight of [animate_parking] lands in the cell
    [draw_parking_lot] draws for the slot: for a column within the grid the
    row and column recovered from the slot number are those it was drawn
    at, and on a canvas at least 120 wide and 100 high the centre of the
    highlight lies within the cell's rectangle. *)
Theorem animate_parking_in_drawn_cell (canvas_width canvas_height row col : Z) :
  0 <= col < AutomatedParkingLotSystem.cols ->
  120 <= canvas_width -> 100 <= canvas_height ->
  let n := AutomatedParkingLotSystem.slot_num row col in
  (n - 1) / AutomatedParkingLotSystem.cols = row /\
  (n - 1) mod AutomatedParkingLotSystem.cols = col /\
  exists x y x1 y1 x2 y2,
    AutomatedParkingLotSystem.animate_parking canvas_width canvas_height n =
      Some (x, y) /\
    AutomatedParkingLotSystem.draw_cell canvas_width canvas_height row col =
      (x1, y1, x2, y2) /\
    x1 <= x <= x2 /\ y1 <= y <= y2.
Proof.
  intros Hcol Hw Hh n. unfold AutomatedParkingLotSystem.cols in *.
  assert (Hrow : (n - 1) / 4 = row).
  { subst n. unfold AutomatedParkingLotSystem.slot_num,
      AutomatedParkingLotSystem.cols.
    replace (row * 4 + col + 1 - 1) with (col + row * 4) by lia.
    rewrite Z.div_add by lia. rewrite Z.div_small by lia. lia. }
  assert (Hc : (n - 1) mod 4 = col).
  { subst n. unfold AutomatedParkingLotSystem.slot_num,
      AutomatedParkingLotSystem.cols.
    replace (row * 4 + col + 1 - 1) with (col + row * 4) by lia.
    rewrite Z.mod_add by lia. apply Z.mod_small. lia. }
  split; [exact Hrow|]. split; [exact Hc|].
  unfold AutomatedParkingLotSystem.animate_parking,
    AutomatedParkingLotSystem.draw_cell, AutomatedParkingLotSystem.cols,
    AutomatedParkingLotSystem.rows.
  replace (100 <? canvas_width) with true by (symmetry; apply Z.ltb_lt; lia).
  replace (canvas_width <? 100) with false by (symmetry; apply Z.ltb_ge; lia).
  replace (canvas_height <? 100) with false by (symmetry; apply Z.ltb_ge; lia).
  simpl. rewrite Hrow, Hc.
  eexists _, _, _, _, _, _. split; [reflexivity|]. split; [reflexivity|].
  assert (20 <= canvas_width / 6) by (apply Z.div_le_lower_bound; lia).
  assert (20 <= canvas_height / 5) by (apply Z.div_le_lower_bound; lia).
  pose proof (Z.div_pos (canvas_width / 6) 2).
  pose proof (Z.div_pos (canvas_height / 5) 2).
  assert (2 * (canvas_width / 6 / 2) <= canvas_width / 6)
    by (apply Z.mul_div_le; lia).
  assert (2 * (canvas_height / 5 / 2) <= canvas_height / 5)
    by (apply Z.mul_div_le; lia).
  change (4 + 2) with 6. change (3 + 2) with 5.
  generalize dependent (canvas_width / 6). intros sw ? ? ?.
  generalize dependent (canvas_height / 5). intros sh ? ? ?.
  generalize ((col + 1) * sw) ((row + 1) * sh). intros X Y. lia.
Qed.

Lemma animate_parking_in_drawn_cell_witness :
  0 <= 2 < AutomatedParkingLotSystem.cols /\ 120 <= 600 /\ 100 <= 400 /\
  (AutomatedParkingLotSystem.slot_num 1 2 - 1) / AutomatedParkingLotSystem.cols = 1.
Proof.
  assert (H1 : 0 <= 2 < AutomatedParkingLotSystem.cols)
    by (unfold AutomatedParkingLotSystem.cols; lia).
  assert (H2 : 120 <= 600) by (vm_compute; discriminate).
  assert (H3 : 100 <= 400) by (vm_compute; discriminate).
  split; [exact H1|]. split; [exact H2|]. split; [exact H3|].
  exact (proj1 (animate_parking_in_drawn_cell 600 400 1 2 H1 H2 H3)).
Defined.

(** ** Index and slots along runs without a repeated identifier *)

(** X21.  Along runs in which no identifier is parked twice, the index and
    the slots tell the same story: the record the index holds for an
    identifier carries that identifier and a slot number within
    [[1, capacity]], and [get_slot_status] of that slot is that record. *)
Theorem index_matches_slots (lot : ParkingLot.t) (k : string) (v : Vehicle.t) :
  fresh_run lot ->
  dict.get k (ParkingLot.vehicles lot) = Some v ->
  Vehicle.vehicle_id v = k /\
  exists n,
    Vehicle.slot_number v = Some n /\
    1 <= n <= ParkingLot.capacity lot /\
    ParkingLot.get_slot_status lot n = Returned (Some v).
Proof.
  intros Hrun Hk.
  destruct (fresh_run_invariants lot Hrun) as (Hok & (_ & Hidx & _) & _).
  destruct (Hidx k v Hk) as [Hid (i & Hsn & Hi)].
  split; [done|]. exists (Z.of_nat i + 1). split; [done|].
  pose proof (lookup_lt_Some _ _ _ Hi) as Hlt.
  split; [unfold slots_ok in Hok; lia | by apply get_slot_status_at].
Qed.

Lemma index_matches_slots_witness :
  fresh_run lot_two /\
  dict.get "XYZ789" (ParkingLot.vehicles lot_two) =
    Some (Vehicle.set_parked sample_bike 2 0) /\
  exists n,
    Vehicle.slot_number (Vehicle.set_parked sample_bike 2 0) = Some n /\
    ParkingLot.get_slot_status lot_two n =
      Returned (Some (Vehicle.set_parked sample_bike 2 0)).
Proof.
  split; [exact lot_two_fresh_run|]. split; [reflexivity|].
  destruct (index_matches_slots lot_two "XYZ789" _ lot_two_fresh_run eq_refl)
    as (_ & n & Hn & _ & Hst).
  exists n. split; [exact Hn | exact Hst].
Defined.

(** X22.  Along such runs no identifier occupies two slots: two occupied
    slots whose records carry the same identifier are the same slot, and
    every record in a slot is the one the index holds for its identifier. *)
Theorem no_identifier_in_two_slots (lot : ParkingLot.t) (n1 n2 : Z)
    (v1 v2 : Vehicle.t) :
  fresh_run lot ->
  ParkingLot.get_slot_status lot n1 = Returned (Some v1) ->
  ParkingLot.get_slot_status lot n2 = Returned (Some v2) ->
  Vehicle.vehicle_id v1 = Vehicle.vehicle_id v2 ->
  n1 = n2 /\ v1 = v2 /\
  dict.get (Vehicle.vehicle_id v1) (ParkingLot.vehicles lot) = Some v1.
Proof.
  intros Hrun H1 H2 Hid.
  destruct (fresh_run_invariants lot Hrun) as (Hok & (_ & _ & Hslot) & _).
  destruct (get_slot_status_inv lot n1 v1 Hok H1) as (i1 & -> & Hi1).
  destruct (get_slot_status_inv lot n2 v2 Hok H2) as (i2 & -> & Hi2).
  destruct (Hslot i1 v1 Hi1) as [Hg1 Hs1].
  destruct (Hslot i2 v2 Hi2) as [Hg2 Hs2].
  rewrite Hid, Hg2 in Hg1. injection Hg1 as ->.
  rewrite Hs1 in Hs2. injection Hs2 as Hs2.
  split; [lia|]. split; [done|]. exact Hg2.
Qed.

Lemma no_identifier_in_two_slots_witness :
  fresh_run lot_two /\
  ParkingLot.get_slot_status lot_two 1 =
    Returned (Some (Vehicle.set_parked sample_car 1 0)) /\
  dict.get "ABC123" (ParkingLot.vehicles lot_two) =
    Some (Vehicle.set_parked sample_car 1 0).
Proof.
  split; [exact lot_two_fresh_run|]. split; [reflexivity|].
  exact (proj2 (proj2 (no_identifier_in_two_slots lot_two 1 1 _ _
                         lot_two_fresh_run eq_refl eq_refl eq_refl))).
Defined.

(** ** Emergency clear, pass by pass *)

Lemma dict_keys_del_first {V} (d : dict.t V) k ks :
  dict.keys d = k :: ks -> dict.keys (dict.del k d) = ks.
Proof.
  destruct d as [|[k0 v0] d]; simpl; [done|].
  intros [= -> <-]. by rewrite String.eqb_refl.
Qed.

Lemma remove_each_revenue clock vehicle_ids lot :
  (ParkingLot.revenue lot
   <= ParkingLot.revenue (remove_each clock vehicle_ids lot))%Q.
Proof.
  revert clock lot. induction vehicle_ids as [|k ks IH]; intros clock lot;
    simpl; [apply Qle_refl|].
  eapply Qle_trans; [apply (remove_vehicle_revenue lot k (clock O)) | apply IH].
Qed.

Lemma emergency_clear_while_remove_each fuel clock lot :
  in_sync lot ->
  (dict.len (ParkingLot.vehicles lot) <= fuel)%nat ->
  AutomatedParkingLotSystem.emergency_clear_while fuel clock lot =
    Some (remove_each clock (dict.keys (ParkingLot.vehicles lot)) lot).
Proof.
  revert clock lot. induction fuel as [|fuel IH]; intros clock lot Hsync Hlen.
  - destruct (ParkingLot.vehicles lot) as [|p d] eqn:E; [|simpl in Hlen; lia].
    simpl. by rewrite E.
  - simpl.
    destruct (dict.keys (ParkingLot.vehicles lot)) as [|k ks] eqn:Ek; [done|].
    destruct (dict_first_key _ _ _ Ek) as [v Hk].
    destruct (remove_vehicle_preserves_sync lot k v (clock O) Hsync Hk)
      as [Hsync' Hlen'].
    assert (Hkeys : dict.keys (ParkingLot.vehicles
                       (fst (ParkingLot.remove_vehicle lot k (clock O)))) = ks).
    { destruct (remove_vehicle_in_sync lot k v (clock O) Hsync Hk)
        as (i & _ & ->). simpl. by apply dict_keys_del_first. }
    simpl.
    destruct (ParkingLot.remove_vehicle lot k (clock O)) as [lot1 r].
    simpl in *. rewrite IH by (done || lia). by rewrite Hkeys.
Qed.

Lemma is_empty_shape lot :
  ParkingLot.is_empty lot = true ->
  ParkingLot.is_occupied <$> ParkingLot.slots lot =
    replicate 0 true ++ replicate (length (ParkingLot.slots lot)) false.
Proof.
  unfold ParkingLot.is_empty.
  induction (ParkingLot.slots lot) as [|[w|] slots IH]; simpl; [done|done|].
  intros H. f_equal. exact (IH H).
Qed.

(** X23.  On a lot whose index and slots are in step both ways (every
    indexed record sits in the slot it names and every occupied slot holds
    the record indexed under its identifier), a confirmed emergency clear is
    exactly one [remove_vehicle] call per indexed vehicle, in index order,
    the k-th at the k-th clock reading.  It ends within one pass per indexed
    vehicle and leaves the index empty and every slot free; capacity and
    admission counter stay and the revenue is not lowered.  On a lot that
    was not empty the display is updated afterwards, and where the slot
    array has the length of the capacity that update raises nothing and
    shows every slot free.  On an empty lot, and when declined, the handler
    leaves the lot as it was and updates no display. *)
Theorem emergency_clear_is_remove_each (fuel : nat) (clock : nat -> datetime)
    (lot : ParkingLot.t) :
  in_sync lot ->
  (dict.len (ParkingLot.vehicles lot) <= fuel)%nat ->
  let lot' := remove_each clock (dict.keys (ParkingLot.vehicles lot)) lot in
  AutomatedParkingLotSystem.emergency_clear fuel clock true lot =
    Some (lot', if ParkingLot.is_empty lot then None
                else Some (AutomatedParkingLotSystem.update_display lot')) /\
  (ParkingLot.is_empty lot = true -> lot' = lot) /\
  ParkingLot.vehicles lot' = dict.empty /\
  ParkingLot.is_empty lot' = true /\
  length (ParkingLot.slots lot') = length (ParkingLot.slots lot) /\
  ParkingLot.capacity lot' = ParkingLot.capacity lot /\
  ParkingLot.total_vehicles lot' = ParkingLot.total_vehicles lot /\
  (ParkingLot.revenue lot <= ParkingLot.revenue lot')%Q /\
  (slots_ok lot -> ParkingLot.is_empty lot = false ->
   AutomatedParkingLotSystem.update_display lot' =
     AutomatedParkingLotSystem.Shown (length (ParkingLot.slots lot)) 0
       ((inject_Z 0 / inject_Z (ParkingLot.capacity lot)) * 100)%Q
       (ParkingLot.revenue lot') (ParkingLot.total_vehicles lot)) /\
  AutomatedParkingLotSystem.emergency_clear fuel clock false lot =
    Some (lot, None).
Proof.
  intros Hsync Hfuel lot'.
  assert (Hdeclined :
    AutomatedParkingLotSystem.emergency_clear fuel clock false lot =
      Some (lot, None)).
  { unfold AutomatedParkingLotSystem.emergency_clear.
    by destruct (ParkingLot.is_empty lot). }
  assert (Hrev : (ParkingLot.revenue lot <= ParkingLot.revenue lot')%Q)
    by apply remove_each_revenue.
  pose proof (emergency_clear_while_remove_each fuel clock lot Hsync Hfuel)
    as Hrun.
  fold lot' in Hrun.
  destruct (emergency_clear_while_in_sync fuel clock lot Hsync Hfuel)
    as (lot2 & Hrun2 & Hsync' & Hnil & Hcap & Htot & Hlen).
  rewrite Hrun in Hrun2. injection Hrun2 as <-.
  pose proof (in_sync_no_index_empty lot' Hsync' Hnil) as Hempty'.
  assert (Hsame : ParkingLot.is_empty lot = true -> lot' = lot).
  { intros Hempty.
    pose proof (in_sync_empty_no_index lot Hsync Hempty) as Hnil0.
    subst lot'. by rewrite Hnil0. }
  split.
  { unfold AutomatedParkingLotSystem.emergency_clear.
    destruct (ParkingLot.is_empty lot) eqn:Hempty.
    - by rewrite (Hsame eq_refl).
    - by rewrite Hrun. }
  split; [exact Hsame|].
  split; [exact Hnil|]. split; [exact Hempty'|]. split; [exact Hlen|].
  split; [exact Hcap|]. split; [exact Htot|]. split; [exact Hrev|].
  split; [|exact Hdeclined].
  intros Hok Hnonempty.
  assert (Hok' : slots_ok lot') by (unfold slots_ok in *; congruence).
  assert (Hpos : ParkingLot.capacity lot <> 0).
  { unfold slots_ok in Hok. unfold ParkingLot.is_empty in Hnonempty.
    destruct (ParkingLot.slots lot); [done|]. simpl in Hok. lia. }
  destruct (shape_counts lot' _ _ (is_empty_shape lot' Hempty')) as [Ho Ha].
  unfold AutomatedParkingLotSystem.update_display,
    AutomatedParkingLotSystem.draw_parking_lot.
  destruct (slot_statuses_returns lot' AutomatedParkingLotSystem.drawn_slots Hok')
    as [drawn ->].
  unfold ParkingLot.get_occupancy_rate. rewrite Hcap, Ho, Ha, Htot, Hlen.
  replace (ParkingLot.capacity lot =? 0) with false
    by (symmetry; by apply Z.eqb_neq).
  done.
Qed.

Lemma emergency_clear_is_remove_each_witness :
  in_sync lot_two /\
  (dict.len (ParkingLot.vehicles lot_two) <= 2)%nat /\
  fst <$> AutomatedParkingLotSystem.emergency_clear 2 (fun _ => hour) true lot_two =
    Some (remove_each (fun _ => hour) ["ABC123"; "XYZ789"]%string lot_two).
Proof.
  pose proof (proj1 (proj2 (fresh_run_invariants lot_two lot_two_fresh_run)))
    as Hsync.
  assert (Hlen : (dict.len (ParkingLot.vehicles lot_two) <= 2)%nat)
    by (vm_compute; lia).
  split; [exact Hsync|]. split; [exact Hlen|].
  pose proof (proj1 (emergency_clear_is_remove_each 2 (fun _ => hour) lot_two
                       Hsync Hlen)) as H.
  simpl in H. rewrite H. reflexivity.
Defined.
